(** * memc_load.py: the appsinstalled loader

    A shallow embedding of [src/memc_load.py] and the properties of its
    line parser, shard routing, store writer, error-rate gate and
    completion rename.

    Conventions.
    - A Python [str] is the list of its code points ([N]).
    - Code that logs, calls the store, renames a file or raises runs in the
      monad [M]: the events it emits, in order, and either a value or the
      exception that ended it.
    - What the loader takes from outside its file (the builtins [int] and
      [float], the generated protobuf class, the memcache client) is the
      record [Runtime]; every definition of the loader is parametric in it.
    - The pool of workers is there twice: as [pool_map], the items taken one
      after another, for what holds of every line or when every item
      returns, and as [pool_map_run], the runs the workers can make, with
      [FileIO] for a reader or a rename that raises, for what happens to a
      whole file and to the exit code when something fails. *)

From Stdlib Require Import ZArith NArith List String Ascii Floats.
From stdpp Require Import gmap list sorting.

#[local] Set Warnings "-inexact-float".
Local Open Scope N_scope.

(** ** Python strings *)

Abbreviation str := (list N).

(** A literal: the code points of an ASCII string. *)
Definition lit (s : string) : str :=
  map N_of_ascii (list_ascii_of_string s).
Arguments lit s%_string.

Definition TAB : N := 9.
Definition COMMA : N := 44.
Definition COLON : N := 58.
Definition DOT : N := 46.
Definition SLASH : N := 47.

(** [str.isspace] on one character: the code points CPython's
    [_PyUnicode_IsWhitespace] accepts. *)
Definition isspace (c : N) : bool :=
  ((9 <=? c) && (c <=? 13)) || ((28 <=? c) && (c <=? 32))
  || (c =? 133) || (c =? 160) || (c =? 5760)
  || ((8192 <=? c) && (c <=? 8202))
  || (c =? 8232) || (c =? 8233) || (c =? 8239) || (c =? 8287) || (c =? 12288).

Fixpoint lstrip (s : str) : str :=
  match s with
  | c :: s' => if isspace c then lstrip s' else s
  | [] => []
  end.

Definition rstrip (s : str) : str := rev (lstrip (rev s)).

(** [s.strip()] *)
Definition strip (s : str) : str := rstrip (lstrip s).

(** [s.split(sep)] for a separator of one character: never empty. *)
Fixpoint split (sep : N) (s : str) : list str :=
  match s with
  | [] => [[]]
  | c :: s' =>
      if c =? sep then [] :: split sep s'
      else match split sep s' with
           | w :: ws => (c :: w) :: ws
           | [] => [[c]]
           end
  end.

(** [sep.join(parts)], used to write lines in the examples. *)
Fixpoint join (sep : N) (parts : list str) : str :=
  match parts with
  | [] => []
  | [p] => p
  | p :: ps => p ++ sep :: join sep ps
  end.

(** [not s] for a string. *)
Definition is_empty (s : str) : bool :=
  match s with [] => true | _ => false end.

(** ** Exceptions, events and the monad of the loader *)

(** The exceptions the loader raises itself, and any other subclass of
    [Exception] (what the store client raises: socket errors and the like),
    told apart by a tag. *)
Inductive exn :=
| ValueError
| AttributeError
| TypeError
| OtherException (tag : N).

Definition bytes := list Byte.byte.

(** A coordinate of a record: a float once [float()] succeeded, the text of
    the field otherwise. *)
Inductive coord :=
| CStr (s : str)
| CFloat (f : float).

(** [AppsInstalled = namedtuple(dev_type, dev_id, lat, lon, apps)] *)
Record AppsInstalled := mkAppsInstalled {
  dev_type : str;
  dev_id : str;
  lat : coord;
  lon : coord;
  apps : list Z
}.

(** The fields of the message [appsinstalled_pb2.UserApps]. *)
Record UserApps := mkUserApps {
  ua_lat : float;
  ua_lon : float;
  ua_apps : list Z
}.

(** [class HandleLineResult(Enum)]: [SKIP = -1], [OK = 0], [ERROR = 1]. *)
Inductive HandleLineResult := SKIP | OK | ERROR.

(** [logging.debug], [.info], [.error] and [.exception]. *)
Inductive level := DEBUG | INFO | LVL_ERROR | EXCEPTION.

(** One constructor per logging call of the file, with the values it
    formats. *)
Inductive message :=
| NotAllDigits (line : str)
| InvalidGeo (line : str)
| UnknownDevice (dev : str)
| CannotWrite (addr : str) (e : exn)
| WouldWrite (addr key : str) (ua : UserApps)
| Processing (filename : str)
| Acceptable (err_rate : float)
| HighRate (err_rate threshold : float).

(** What the loader does to the world: a logging call, a call of the store
    client, [os.rename]. *)
Inductive event :=
| Log (lvl : level) (m : message)
| MemcSet (addr key : str) (packed : bytes)
| Rename (src dst : str).

(** How a computation ends: it returns a value or raises. *)
Inductive res (A : Type) :=
| Ret (a : A)
| Raise (e : exn).
Arguments Ret {A} a.
Arguments Raise {A} e.

(** The events of a computation, oldest first, and its end. *)
Definition M (A : Type) : Type := list event * res A.

Definition ret {A} (a : A) : M A := ([], Ret a).
Definition raise {A} (e : exn) : M A := ([], Raise e).
Definition emit (ev : event) : M unit := ([ev], Ret tt).

Definition bind {A B} (m : M A) (k : A -> M B) : M B :=
  match m with
  | (tr, Ret a) => let '(tr', r) := k a in (tr ++ tr', r)
  | (tr, Raise e) => (tr, Raise e)
  end.

Notation "x <- m ;; k" := (bind m (fun x => k))
  (at level 100, m at next level, right associativity).
Notation "m ;;; k" := (bind m (fun _ => k))
  (at level 100, right associativity).

(** [try: m  except <class>: h], the class given as a test on the
    exception. *)
Definition try_except {A} (m : M A) (caught : exn -> bool) (h : exn -> M A) : M A :=
  match m with
  | (tr, Raise e) =>
      if caught e then let '(tr', r) := h e in (tr ++ tr', r) else (tr, Raise e)
  | (tr, Ret a) => (tr, Ret a)
  end.

Definition is_ValueError (e : exn) : bool :=
  match e with ValueError => true | _ => false end.

(** Every exception of the model derives from [Exception]. *)
Definition is_Exception (e : exn) : bool := true.

(** [[f(a) for a in l]] *)
Fixpoint for_each {A B} (f : A -> M B) (l : list A) : M (list B) :=
  match l with
  | [] => ret []
  | a :: l' => b <- f a ;; bs <- for_each f l' ;; ret (b :: bs)
  end.

(** [[f(a) for a in l if cond(a)]] *)
Fixpoint for_each_if {A B} (cond : A -> M bool) (f : A -> M B) (l : list A) : M (list B) :=
  match l with
  | [] => ret []
  | a :: l' =>
      c <- cond a ;;
      if c then b <- f a ;; bs <- for_each_if cond f l' ;; ret (b :: bs)
      else for_each_if cond f l'
  end.

Definition events {A} (m : M A) : list event := fst m.
Definition outcome {A} (m : M A) : res A := snd m.

Definition is_log (ev : event) : bool :=
  match ev with Log _ _ => true | _ => false end.

Definition is_store_write (ev : event) : bool :=
  match ev with MemcSet _ _ _ => true | _ => false end.

Definition not_store_write (ev : event) : bool := negb (is_store_write ev).
Definition not_rename (ev : event) : bool :=
  match ev with Rename _ _ => false | _ => true end.

(** A property of every event of a computation. *)
Definition all_events {A} (P : event -> bool) (m : M A) : Prop :=
  forallb P (fst m) = true.

(** A stripped string starts with a character that is not a space. *)
Definition starts_clean (s : str) : Prop :=
  match s with
  | [] => True
  | c :: _ => isspace c = false
  end.

(** ** [os.path] (POSIX) *)

(** [(p[:i], p[i:])] for [i = p.rfind('/') + 1]. *)
Fixpoint cut_after_last_slash (p : str) : str * str :=
  match p with
  | [] => ([], [])
  | c :: p' =>
      match cut_after_last_slash p' with
      | ([], tail) => if c =? SLASH then ([c], tail) else ([], c :: tail)
      | (head, tail) => (c :: head, tail)
      end
  end.

Fixpoint lstrip_slash (s : str) : str :=
  match s with
  | c :: s' => if c =? SLASH then lstrip_slash s' else s
  | [] => []
  end.

(** [s.rstrip('/')] *)
Definition rstrip_slash (s : str) : str := rev (lstrip_slash (rev s)).

(** [os.path.split(p)] *)
Definition os_path_split (p : str) : str * str :=
  let '(head, tail) := cut_after_last_slash p in
  if negb (is_empty head) && negb (forallb (N.eqb SLASH) head)
  then (rstrip_slash head, tail)
  else (head, tail).

Definition startswith_slash (s : str) : bool :=
  match s with c :: _ => c =? SLASH | [] => false end.

Definition endswith_slash (s : str) : bool := startswith_slash (rev s).

(** [os.path.join(a, b)] *)
Definition os_path_join (a b : str) : str :=
  if startswith_slash b then b
  else if is_empty a || endswith_slash a then a ++ b
  else a ++ SLASH :: b.

(** ** [glob]: what [glob.iglob(pathname)] reads of the file system *)

Record FileSystem := mkFileSystem {
  (** [os.scandir(dirname)]: the names of the entries, each with its
      [is_dir()]; empty when the directory cannot be read. *)
  scandir : str -> list (str * bool);
  (** [os.path.lexists(path)] *)
  lexists : str -> bool;
  (** [os.path.isdir(path)] *)
  isdir : str -> bool
}.

(** [magic_check.search(s) is not None]: one of [*], [?], [[]. *)
Definition has_magic (s : str) : bool :=
  existsb (fun c => (c =? 42) || (c =? 63) || (c =? 91)) s.

(** [_ishidden(path)]: [path[0] == '.'], on the non-empty names and patterns
    [glob] applies it to. *)
Definition ishidden (path : str) : bool :=
  match path with c :: _ => c =? DOT | [] => false end.

(** [_join(dirname, basename)] of [glob]. *)
Definition glob_join (dirname basename : str) : str :=
  if is_empty dirname || is_empty basename
  then (if is_empty dirname then basename else dirname)
  else os_path_join dirname basename.

Definition listdir (fs : FileSystem) (dirname : str) (dironly : bool) : list str :=
  map fst
    (filter (fun e => Is_true (negb dironly || snd e))
       (scandir fs (if is_empty dirname then [DOT] else dirname))).

(** Code points compared as [str] compares them, for [sorted]. *)
Fixpoint str_le (a b : str) : bool :=
  match a, b with
  | [], _ => true
  | _ :: _, [] => false
  | x :: a', y :: b' => (x <? y) || ((x =? y) && str_le a' b')
  end.

Definition sorted (l : list str) : list str :=
  merge_sort (fun a b => Is_true (str_le a b)) l.

(** ** What the loader takes from outside its file *)

Record Runtime := mkRuntime {
  (** [int(s)]; [None] stands for [ValueError]. *)
  py_int : str -> option Z;
  (** [float(s)]; [None] stands for [ValueError]. *)
  py_float : str -> option float;
  (** Whether an integer is in the range of the element type of the
      repeated field [apps] of [appsinstalled_pb2.UserApps] (the generated
      module is not part of the sources). *)
  apps_fits : Z -> bool;
  (** [ua.SerializeToString()]: the wire format is opaque to the loader. *)
  SerializeToString : UserApps -> bytes;
  (** [memcache.Client([addr]).set(key, packed)]: [None] when the call
      returns (its value is dropped by the loader), [Some e] when it
      raises [e]. *)
  memc_set : str -> str -> bytes -> option exn;
  (** [fnmatch.fnmatchcase(name, pat)], as [glob] uses it. *)
  fnmatchcase : str -> str -> bool
}.

(** [optparse]'s values, as [__main__] declares them. *)
Record Options := mkOptions {
  dry : bool;
  pattern : str;
  idfa : str;
  gaid : str;
  adid : str;
  dvid : str
}.

Definition MAX_FILE_THREADS : Z := 2.
Definition MAX_LINE_THREADS : Z := 4.
Definition NORMAL_ERR_RATE : float := 0.01%float.

(** [float(n)] for an [int]: the nearest double, ties to even.  CPython
    raises [OverflowError] from 2^1024 on, where this gives infinity; the
    counters it is applied to are bounded by the length of a list held in
    memory. *)
Definition float_of_int (n : Z) : float :=
  SF2Prim (binary_normalize prec emax n 0 false).

Definition HandleLineResult_eqb (a b : HandleLineResult) : bool :=
  match a, b with
  | SKIP, SKIP | OK, OK | ERROR, ERROR => true
  | _, _ => false
  end.

(** The truth value of a member of a plain [Enum]: the class defines no
    [__bool__], so every member is true, whatever its value. *)
Definition Enum_bool (r : HandleLineResult) : bool := true.

Section Loader.

Variable rt : Runtime.

Definition int_ (s : str) : M Z :=
  match py_int rt s with
  | Some n => ret n
  | None => raise ValueError
  end.

Definition float_ (s : str) : M float :=
  match py_float rt s with
  | Some f => ret f
  | None => raise ValueError
  end.

(** [a.isidigit()]: [str] has no attribute of that name. *)
Definition isidigit (a : str) : M bool := raise AttributeError.

(** [dev_type, dev_id, lat, lon, raw_apps = line_parts] *)
Definition unpack5 (line_parts : list str) : M (str * str * str * str * str) :=
  match line_parts with
  | [a; b; c; d; e] => ret (a, b, c, d, e)
  | _ => raise ValueError
  end.

Definition parse_appsinstalled (line : str) : M (option AppsInstalled) :=
  let line_parts := split TAB (strip line) in
  if (length line_parts <? 5)%nat then ret None
  else
    fields <- unpack5 line_parts ;;
    let '(dev_type, dev_id, lat, lon, raw_apps) := fields in
    if is_empty dev_type || is_empty dev_id then ret None
    else
      apps <- try_except
                (for_each (fun a => int_ (strip a)) (split COMMA raw_apps))
                is_ValueError
                (fun _ =>
                   apps <- for_each_if isidigit (fun a => int_ (strip a))
                             (split COMMA raw_apps) ;;
                   emit (Log INFO (NotAllDigits line)) ;;;
                   ret apps) ;;
      geo <- try_except
               (la <- float_ lat ;; lo <- float_ lon ;;
                ret (CFloat la, CFloat lo))
               is_ValueError
               (fun _ =>
                  emit (Log INFO (InvalidGeo line)) ;;;
                  ret (CStr lat, CStr lon)) ;;
      let '(lat, lon) := geo in
      ret (Some (mkAppsInstalled dev_type dev_id lat lon apps)).

(** Modelled from the spec: the generated class [appsinstalled_pb2.UserApps]
    is not part of the sources.  The spec gives the record's [lat] and [lon]
    as floats and [prototest] assigns floats to them, so they are floating
    fields; the protobuf runtime raises [TypeError] when a [str] is assigned
    to one. *)
Definition set_double (c : coord) : M float :=
  match c with
  | CFloat f => ret f
  | CStr _ => raise TypeError
  end.

(** [ua.apps.extend(apps)]: each element is checked against the range of
    the field, [ValueError] otherwise. *)
Definition apps_extend (l : list Z) : M (list Z) :=
  for_each (fun a => if apps_fits rt a then ret a else raise ValueError) l.

(** The message of lines 41-46: built before the [try]. *)
Definition build_UserApps (appsinstalled : AppsInstalled) : M UserApps :=
  la <- set_double (lat appsinstalled) ;;
  lo <- set_double (lon appsinstalled) ;;
  l <- apps_extend (apps appsinstalled) ;;
  ret (mkUserApps la lo l).

Definition memc_key (appsinstalled : AppsInstalled) : str :=
  dev_type appsinstalled ++ COLON :: dev_id appsinstalled.

(** The call of the store client: the attempt is an event, then the
    client returns or raises. *)
Definition memc_set_call (addr key : str) (packed : bytes) : M unit :=
  emit (MemcSet addr key packed) ;;;
  match memc_set rt addr key packed with
  | None => ret tt
  | Some e => raise e
  end.

(** The [return True] that follows the [try] statement is the end of its
    body here: nothing between the two can raise. *)
Definition insert_appsinstalled (memc_addr : str) (appsinstalled : AppsInstalled)
    (dry_run : bool) : M bool :=
  ua <- build_UserApps appsinstalled ;;
  let key := memc_key appsinstalled in
  let packed := SerializeToString rt ua in
  try_except
    ((if dry_run then emit (Log DEBUG (WouldWrite memc_addr key ua))
      else memc_set_call memc_addr key packed) ;;;
     ret true)
    is_Exception
    (fun e => emit (Log EXCEPTION (CannotWrite memc_addr e)) ;;; ret false).

(** [device_memc.get(dev_type)] is [None] or the configured address;
    [not memc_addr] holds for [None] and for an empty address. *)
Definition handle_line (line : str) (options : Options)
    (device_memc : gmap str str) : M HandleLineResult :=
  let line := strip line in
  if is_empty line then ret SKIP
  else
    appsinstalled <- parse_appsinstalled line ;;
    match appsinstalled with
    | None => ret ERROR
    | Some appsinstalled =>
        match device_memc !! dev_type appsinstalled with
        | Some ((_ :: _) as memc_addr) =>
            ok <- insert_appsinstalled memc_addr appsinstalled (dry options) ;;
            ret (if ok then OK else ERROR)
        | _ =>
            emit (Log LVL_ERROR (UnknownDevice (dev_type appsinstalled))) ;;;
            ret ERROR
        end
    end.

(** The loop of [calculate_raiting], one result at a time. *)
Definition count_result (acc : Z * Z) (result : HandleLineResult) : Z * Z :=
  let '(processed, errors) := acc in
  if HandleLineResult_eqb result OK then (processed + 1, errors)%Z
  else if Enum_bool ERROR then (processed, errors + 1)%Z
  else (processed, errors).

Definition count_results (results : list HandleLineResult) : Z * Z :=
  fold_left count_result results (0, 0)%Z.

(** Lines 106-112: the verdict for the two counters. *)
Definition rate_verdict (processed errors : Z) : M unit :=
  if (processed =? 0)%Z then ret tt
  else
    let err_rate := PrimFloat.div (float_of_int errors) (float_of_int processed) in
    if PrimFloat.ltb err_rate NORMAL_ERR_RATE
    then emit (Log INFO (Acceptable err_rate))
    else emit (Log LVL_ERROR (HighRate err_rate NORMAL_ERR_RATE)).

Definition calculate_raiting (results : list HandleLineResult) : M unit :=
  let '(processed, errors) := count_results results in
  rate_verdict processed errors.

(** The name [dot_rename] gives to [path]. *)
Definition dotted (path : str) : str :=
  let '(head, fn) := os_path_split path in
  os_path_join head (DOT :: fn).

Definition dot_rename (path : str) : M unit :=
  let '(head, fn) := os_path_split path in
  emit (Rename path (os_path_join head (DOT :: fn))).

(** [ThreadPool(n).map(f, iterable)] followed by [close] and [join]: the
    call returns once every item is done, with the results in the order of
    the items, or raises what an item raised.  The workers' events are
    taken item after item; with a raising item, which later items the
    workers still handle depends on the chunking and is not modelled
    here: the runs of the workers themselves are [pool_map_run]. *)
Definition pool_map {A B} (f : A -> M B) (iterable : list A) : M (list B) :=
  for_each f iterable.

(** [fd] is the sequence of lines the reader of [make_reader(filename)]
    yields. *)
Definition process_file (filename : str) (fd : list str) (options : Options)
    (device_memc : gmap str str) : M unit :=
  emit (Log INFO (Processing filename)) ;;;
  results <- pool_map (fun line => handle_line line options device_memc) fd ;;
  dot_rename filename ;;;
  calculate_raiting results.

(** The table [main] builds from the options. *)
Definition device_memc_of (options : Options) : gmap str str :=
  <[lit "dvid" := dvid options]>
    (<[lit "adid" := adid options]>
       (<[lit "gaid" := gaid options]>
          (<[lit "idfa" := idfa options]> ∅))).

(** [_glob1(dirname, pattern, dironly)] *)
Definition glob1 (fs : FileSystem) (dirname pattern : str) (dironly : bool) : list str :=
  let names := listdir fs dirname dironly in
  let names :=
    if ishidden pattern then names
    else filter (fun x => Is_true (negb (ishidden x))) names in
  filter (fun x => Is_true (fnmatchcase rt x pattern)) names.

(** [_glob0(dirname, basename, dironly)] *)
Definition glob0 (fs : FileSystem) (dirname basename : str) (dironly : bool) : list str :=
  if is_empty basename then
    if isdir fs dirname then [basename] else []
  else
    if lexists fs (glob_join dirname basename) then [basename] else [].

(** [_iglob(pathname, dironly)] with [recursive=False]; the fuel bounds the
    nesting of directory patterns and [length pathname] is enough
    ([iglob_fuel_enough]). *)
Fixpoint iglob_rec (fuel : nat) (fs : FileSystem) (pathname : str) (dironly : bool)
    : list str :=
  let '(dirname, basename) := os_path_split pathname in
  if negb (has_magic pathname) then
    if is_empty basename then
      if isdir fs dirname then [pathname] else []
    else
      if lexists fs pathname then [pathname] else []
  else if is_empty dirname then glob1 fs [] basename dironly
  else
    let dirs :=
      if negb (bool_decide (dirname = pathname)) && has_magic dirname then
        match fuel with
        | S fuel' => iglob_rec fuel' fs dirname true
        | O => []
        end
      else [dirname] in
    let glob_in_dir := if has_magic basename then glob1 else glob0 in
    flat_map
      (fun dirname => map (os_path_join dirname) (glob_in_dir fs dirname basename dironly))
      dirs.

(** [glob.iglob(pathname)] *)
Definition iglob (fs : FileSystem) (pathname : str) : list str :=
  iglob_rec (length pathname) fs pathname false.

(** [files_to_work = sorted(glob.iglob(options.pattern))] *)
Definition files_to_work (fs : FileSystem) (options : Options) : list str :=
  sorted (iglob fs (pattern options)).

End Loader.

(** The integers of a comma-separated field when every token, stripped,
    reads as one. *)
Definition int_tokens (rt : Runtime) (raw_apps : str) : option (list Z) :=
  mapM (fun a => py_int rt (strip a)) (split COMMA raw_apps).

(** What the parser logs about the coordinates of a line. *)
Definition geo_events (rt : Runtime) (line la lo : str) : list event :=
  match py_float rt la, py_float rt lo with
  | Some _, Some _ => []
  | _, _ => [Log INFO (InvalidGeo line)]
  end.

(** How many results satisfy a test, as the integer a counter holds. *)
Definition tally (P : HandleLineResult -> bool) (results : list HandleLineResult) : Z :=
  Z.of_nat (length (List.filter P results)).

Definition is_OK (r : HandleLineResult) : bool := HandleLineResult_eqb r OK.
Definition is_ERROR (r : HandleLineResult) : bool := HandleLineResult_eqb r ERROR.
Definition is_SKIP (r : HandleLineResult) : bool := HandleLineResult_eqb r SKIP.

(** The float test of the gate agrees with the exact comparison
    [errors / processed < 1/100]. *)
Definition gate_agrees (processed errors : Z) : bool :=
  Bool.eqb
    (PrimFloat.ltb (PrimFloat.div (float_of_int errors) (float_of_int processed))
       NORMAL_ERR_RATE)
    (100 * errors <? processed)%Z.

(** A name with no [/] in it, as the entries of a directory are. *)
Definition no_slash (s : str) : bool := forallb (fun c => negb (c =? SLASH)) s.

(** The entries [os.scandir] lists are file names. *)
Definition names_ok (fs : FileSystem) : Prop :=
  forall d n b, In (n, b) (scandir fs d) -> no_slash n = true.

(** The last component of a path, as [os.path.split] gives it. *)
Definition basename_of (p : str) : str := snd (os_path_split p).

(** ** A runtime to run the loader on examples

    The theorems below hold for every [Runtime]; the examples need one.
    [demo_int] is [int()] on ASCII text (optional sign, decimal digits,
    single underscores between digits), [demo_float] is [float()] on plain
    decimals of at most 15 digits, where the quotient of two exact doubles
    is the correctly rounded value, and [wild_match] is [fnmatchcase] on
    patterns without bracket expressions.  Python reads more than these
    (digits of other scripts, exponents, [inf], [nan], character classes);
    no example uses such a text. *)

Definition is_digit (c : N) : bool := (48 <=? c) && (c <=? 57).

Fixpoint digits_value (acc : Z) (after_digit : bool) (s : str) : option Z :=
  match s with
  | [] => if after_digit then Some acc else None
  | c :: s' =>
      if is_digit c then digits_value (acc * 10 + Z.of_N (c - 48)) true s'
      else if (c =? 95) && after_digit then
        match s' with
        | d :: _ => if is_digit d then digits_value acc false s' else None
        | [] => None
        end
      else None
  end.

Definition signed (f : str -> option Z) (s : str) : option Z :=
  match s with
  | 43 :: s' => f s'
  | 45 :: s' => Z.opp <$> f s'
  | _ => f s
  end.

Definition demo_int (s : str) : option Z :=
  signed (digits_value 0 false) (strip s).

Definition demo_float (s : str) : option float :=
  match split DOT (strip s) with
  | [i] =>
      if (length i <=? 15)%nat then float_of_int <$> signed (digits_value 0 false) i
      else None
  | [i; f] =>
      if forallb is_digit f && negb (is_empty f) && (length i + length f <=? 15)%nat
      then
        m ← signed (digits_value 0 false) (i ++ f);
        Some (PrimFloat.div (float_of_int m) (float_of_int (10 ^ Z.of_nat (length f))))
      else None
  | _ => None
  end.

(** Some suffix of [name] satisfies [f]. *)
Fixpoint some_suffix (f : str -> bool) (name : str) : bool :=
  f name || match name with
            | [] => false
            | _ :: name' => some_suffix f name'
            end.

(** [*] matches any run of characters, [?] any one character, another
    character itself. *)
Fixpoint wild_match (pat name : str) {struct pat} : bool :=
  match pat with
  | [] => is_empty name
  | c :: pat' =>
      if c =? 42 then some_suffix (wild_match pat') name
      else
        match name with
        | [] => false
        | x :: name' => ((c =? 63) || (c =? x)) && wild_match pat' name'
        end
  end.

(** The demo runtime for a given behaviour of the store; the [apps] field
    is taken to hold unsigned 32-bit integers and the wire bytes, which the
    loader never inspects, are left empty. *)
Definition demo_runtime (store : str -> str -> bytes -> option exn) : Runtime :=
  {| py_int := demo_int;
     py_float := demo_float;
     apps_fits := fun n => ((0 <=? n) && (n <? 2 ^ 32))%Z;
     SerializeToString := fun _ => [];
     memc_set := store;
     fnmatchcase := fun name pat => wild_match pat name |}.

(** A store that accepts every write, and one that is down. *)
Definition store_up : str -> str -> bytes -> option exn := fun _ _ _ => None.
Definition store_down : str -> str -> bytes -> option exn :=
  fun _ _ _ => Some (OtherException 111).

(** The fields of a line, joined by tabs. *)
Definition tsv (fields : list str) : str := join TAB fields.

(** The defaults of [__main__], live or dry. *)
Definition default_options (dry : bool) : Options :=
  mkOptions dry (lit "/data/appsinstalled/*.tsv.gz")
    (lit "127.0.0.1:33013") (lit "127.0.0.1:33014")
    (lit "127.0.0.1:33015") (lit "127.0.0.1:33016").

(** A file system whose one directory [dir] holds the given entries, all
    regular files. *)
Definition one_dir (dir : str) (names : list str) : FileSystem :=
  {| scandir := fun d =>
       if bool_decide (d = dir) then map (fun n => (n, false)) names else [];
     lexists := fun p => bool_decide (p ∈ map (os_path_join dir) names);
     isdir := fun p => bool_decide (p = dir) |}.

(** Options with the pattern given on the command line. *)
Definition options_with_pattern (pat : str) : Options :=
  mkOptions false pat
    (lit "127.0.0.1:33013") (lit "127.0.0.1:33014")
    (lit "127.0.0.1:33015") (lit "127.0.0.1:33016").

(** Lines of the examples.  The first is the first sample of [prototest]. *)
Definition line_good : str :=
  tsv [lit "idfa"; lit "1rfw452y52g2gq4g"; lit "55.55"; lit "42.42";
       lit "1423,43,567,3,7,23"].
Definition line_six_fields : str :=
  tsv [lit "idfa"; lit "1rfw452y52g2gq4g"; lit "55.55"; lit "42.42";
       lit "1423,43"; lit "extra"].
Definition line_bad_app : str :=
  tsv [lit "idfa"; lit "1rfw452y52g2gq4g"; lit "55.55"; lit "42.42";
       lit "1423,x,567"].
Definition line_bad_geo : str :=
  tsv [lit "idfa"; lit "1rfw452y52g2gq4g"; lit "abc"; lit "42.42";
       lit "1423,43"].
Definition line_bad_geo_six : str :=
  tsv [lit "idfa"; lit "1rfw452y52g2gq4g"; lit "abc"; lit "42.42";
       lit "1423,43"; lit "extra"].
Definition line_unknown_device : str :=
  tsv [lit "abcd"; lit "1rfw452y52g2gq4g"; lit "55.55"; lit "42.42";
       lit "1423,43"].

(** The record of [line_good]. *)
Definition record_good : AppsInstalled :=
  mkAppsInstalled (lit "idfa") (lit "1rfw452y52g2gq4g")
    (CFloat 55.55%float) (CFloat 42.42%float) [1423; 43; 567; 3; 7; 23]%Z.

(** The record the parser returns for [line_bad_geo]. *)
Definition record_bad_geo : AppsInstalled :=
  mkAppsInstalled (lit "idfa") (lit "1rfw452y52g2gq4g")
    (CStr (lit "abc")) (CStr (lit "42.42")) [1423; 43]%Z.

(** A string of whitespace only. *)
Definition all_space (s : str) : bool := forallb isspace s.

(** The fields of a line, as the parser splits it. *)
Definition fields_of (line : str) : list str := split TAB (strip line).


(** How many store calls a run of events holds. *)
Definition store_calls (tr : list event) : nat :=
  length (List.filter is_store_write tr).

(** The renames of a run of events, oldest first. *)
Definition renames (tr : list event) : list event :=
  List.filter (fun ev => negb (not_rename ev)) tr.



(** The six ways [parse_appsinstalled] ends, by the fields of the line. *)
Inductive parse_case (rt : Runtime) (line : str) : M (option AppsInstalled) -> Prop :=
| parse_short :
    (length (fields_of line) < 5)%nat ->
    parse_case rt line (ret None)
| parse_long :
    (5 < length (fields_of line))%nat ->
    parse_case rt line (raise ValueError)
| parse_no_identity t i la lo ap :
    fields_of line = [t; i; la; lo; ap] -> t = [] \/ i = [] ->
    parse_case rt line (ret None)
| parse_bad_app t i la lo ap :
    fields_of line = [t; i; la; lo; ap] -> t <> [] -> i <> [] ->
    int_tokens rt ap = None ->
    parse_case rt line (raise AttributeError)
| parse_good t i la lo ap l x y :
    fields_of line = [t; i; la; lo; ap] -> t <> [] -> i <> [] ->
    int_tokens rt ap = Some l ->
    py_float rt la = Some x -> py_float rt lo = Some y ->
    parse_case rt line (ret (Some (mkAppsInstalled t i (CFloat x) (CFloat y) l)))
| parse_bad_geo t i la lo ap l :
    fields_of line = [t; i; la; lo; ap] -> t <> [] -> i <> [] ->
    int_tokens rt ap = Some l ->
    py_float rt la = None \/ py_float rt lo = None ->
    parse_case rt line
      ([Log INFO (InvalidGeo line)],
       Ret (Some (mkAppsInstalled t i (CStr la) (CStr lo) l))).

(** A string with a colon in it. *)
Definition has_colon (s : str) : bool := existsb (N.eqb COLON) s.

(** Two file systems with the same entries, listed in any order. *)
Definition same_entries (fs fs' : FileSystem) : Prop :=
  (forall d, Permutation (scandir fs d) (scandir fs' d)) /\
  (forall p, lexists fs p = lexists fs' p) /\
  (forall p, isdir fs p = isdir fs' p).

(** The order of [sorted], as a relation. *)
Definition str_order (a b : str) : Prop := Is_true (str_le a b).

(** What the script does around [main] when [--test] is not given: the
    start is logged, [main] runs, and an exception that leaves it is logged
    before [sys.exit(1)]. *)
Inductive script_event :=
| Started (opts : Options)
| Run (ev : event)
| Unexpected (e : exn).

(** How many times a member occurs among the results, as the integer a
    counter holds. *)
Definition HandleLineResult_eq_dec (a b : HandleLineResult) : {a = b} + {a <> b}.
Proof. decide equality. Defined.

Definition occurrences (x : HandleLineResult) (results : list HandleLineResult) : Z :=
  Z.of_nat (count_occ HandleLineResult_eq_dec results x).

(** The verdicts of [calculate_raiting] (lines 108-112). *)
Definition no_verdict (ev : event) : bool :=
  match ev with
  | Log _ (Acceptable _) | Log _ (HighRate _ _) => false
  | _ => true
  end.

(** ** The pool of workers and the files, with what can fail

    [pool_map] takes the items one after another and a file is there as
    the list of its lines.  Here a call of [ThreadPool(processes).map] is
    given by the runs its workers can make, as [multiprocessing.pool] has
    them ([_map_async], [_get_tasks], [mapstar], [worker] and
    [MapResult._set]), and reading and renaming a file can raise. *)

(** [chunksize, extra = divmod(len(iterable), len(self._pool) * 4)], and
    one more when [extra] is not zero. *)
Definition map_chunksize (processes len : nat) : nat :=
  let chunksize := (len / (processes * 4))%nat in
  if (len mod (processes * 4) =? 0)%nat then chunksize else S chunksize.

(** [Pool._get_tasks(func, it, size)]: slices of [size] items until a slice
    is empty; [length it] steps are enough. *)
Fixpoint get_tasks {A} (fuel size : nat) (it : list A) : list (list A) :=
  match fuel with
  | O => []
  | S fuel' =>
      match firstn size it with
      | [] => []
      | x => x :: get_tasks fuel' size (skipn size it)
      end
  end.

Definition task_batches {A} (processes : nat) (iterable : list A) : list (list A) :=
  get_tasks (length iterable) (map_chunksize processes (length iterable)) iterable.

(** [mapstar]: a worker handles the items of its task one after another,
    [list(map(func, task))], and the first exception ends the task.  [func]
    is given by its runs, for a call of [process_file] has several. *)
Inductive mapstar {A B} (func : A -> M B -> Prop) : list A -> M (list B) -> Prop :=
| mapstar_nil : mapstar func [] (ret [])
| mapstar_cons a task m ms :
    func a m -> mapstar func task ms ->
    mapstar func (a :: task) (b <- m ;; bs <- ms ;; ret (b :: bs)).

(** The workers.  [queue] holds the tasks not taken yet, in order, and
    [running] the tasks a worker has taken and not reported yet, each as
    what is left of its run; no more than [processes] tasks are running.
    A step takes the next task from the queue, lets a running task make its
    next event, or reports a task that is done.  The result is the events
    in the order they happen and the first failure reported, if any:
    [MapResult._set] keeps the first one and waits for every task. *)
Inductive workers {C} (processes : nat) :
    list (M C) -> list (M C) -> list event * option exn -> Prop :=
| workers_done : workers processes [] [] ([], None)
| workers_get task queue running out :
    (length running < processes)%nat ->
    workers processes queue (running ++ [task]) out ->
    workers processes (task :: queue) running out
| workers_event r1 ev tr r r2 queue tr' failed :
    workers processes queue (r1 ++ (tr, r) :: r2) (tr', failed) ->
    workers processes queue (r1 ++ (ev :: tr, r) :: r2) (ev :: tr', failed)
| workers_put r1 r r2 queue tr' failed :
    workers processes queue (r1 ++ r2) (tr', failed) ->
    workers processes queue (r1 ++ ([], r) :: r2)
      (tr', match r with Raise e => Some e | Ret _ => failed end).

(** The results a task reports when it returns. *)
Definition task_value {B} (m : M (list B)) : list B :=
  match snd m with
  | Ret bs => bs
  | Raise _ => []
  end.

(** The runs of [ThreadPool(processes).map(func, iterable)]: the items are
    cut into tasks, the workers run them, and the call returns the results
    in the order of the items when every task returned, or raises the
    first failure reported, once every task is done. *)
Definition pool_map_run {A B} (processes : nat) (func : A -> M B -> Prop)
    (iterable : list A) (m : M (list B)) : Prop :=
  exists tasks tr failed,
    Forall2 (mapstar func) (task_batches processes iterable) tasks /\
    workers processes tasks [] (tr, failed) /\
    m = (tr, match failed with
             | Some e => Raise e
             | None => Ret (concat (map task_value tasks))
             end).

(** What the loader does with the files themselves. *)
Record FileIO := mkFileIO {
  (** The lines the reader of [make_reader(filename)] yields when it is
      read to its end, or the exception that opening, decompressing or
      decoding the file raises on the way. *)
  read_lines : str -> res (list str);
  (** [os.rename(src, dst)]: [None] when it returns, [Some e] when it
      raises [e]. *)
  os_rename : str -> str -> option exn
}.

(** [dot_rename], with the failure of [os.rename]: the attempt is an
    event, then the call returns or raises. *)
Definition dot_rename_io (io : FileIO) (path : str) : M unit :=
  let '(head, fn) := os_path_split path in
  let dst := os_path_join head (DOT :: fn) in
  emit (Rename path dst) ;;;
  match os_rename io path dst with
  | None => ret tt
  | Some e => raise e
  end.

(** The runs of [process_file].  [pool.map] reads the file to its end
    before it hands out the first line ([list(iterable)], the reader
    having no length), so an exception of the reader comes before any line
    is handled. *)
Definition process_file_run (rt : Runtime) (io : FileIO) (filename : str)
    (options : Options) (device_memc : gmap str str) (m : M unit) : Prop :=
  exists mapped,
    match read_lines io filename with
    | Ret fd =>
        pool_map_run (Z.to_nat MAX_LINE_THREADS)
          (fun line m' => m' = handle_line rt line options device_memc) fd mapped
    | Raise e => mapped = raise e
    end /\
    m = (emit (Log INFO (Processing filename)) ;;;
         results <- mapped ;;
         dot_rename_io io filename ;;;
         calculate_raiting results).

(** The runs of [main], with [max_threads] left at its default. *)
Definition main_run (rt : Runtime) (fs : FileSystem) (io : FileIO)
    (options : Options) (m : M unit) : Prop :=
  let device_memc := device_memc_of options in
  let files_to_work := files_to_work rt fs options in
  exists mapped,
    pool_map_run (Z.to_nat MAX_FILE_THREADS)
      (fun filename => process_file_run rt io filename options device_memc)
      files_to_work mapped /\
    m = (mapped ;;; ret tt).

(** The events of the script and its exit code (0 when the script runs to
    its end), for a run of [main].  The parsing of the options and the
    set-up of logging come before and are not modelled. *)
Definition script_exit (opts : Options) (m : M unit) : list script_event * Z :=
  match m with
  | (tr, Ret _) => (Started opts :: map Run tr, 0%Z)
  | (tr, Raise e) => (Started opts :: map Run tr ++ [Unexpected e], 1%Z)
  end.

Definition script_run (rt : Runtime) (fs : FileSystem) (io : FileIO)
    (opts : Options) (out : list script_event * Z) : Prop :=
  exists m, main_run rt fs io opts m /\ out = script_exit opts m.

(** A file the loader gets through: it is read to its end, each of its
    lines has an outcome and its rename succeeds. *)
Definition loads (rt : Runtime) (io : FileIO) (options : Options) (filename : str) : Prop :=
  exists fd,
    read_lines io filename = Ret fd /\
    (forall line, In line fd ->
       exists r, outcome (handle_line rt line options (device_memc_of options)) = Ret r) /\
    os_rename io filename (dotted filename) = None.

(** Files of the examples: each holds the given lines, or cannot be read,
    and every rename succeeds. *)
Definition io_of_lines (lines : list str) : FileIO :=
  {| read_lines := fun _ => Ret lines; os_rename := fun _ _ => None |}.
Definition io_not_gzip : FileIO :=
  {| read_lines := fun _ => Raise (OtherException 0); os_rename := fun _ _ => None |}.

(** ** Strings: stripping and splitting *)

Lemma split_not_nil sep s : split sep s <> [].
Proof.
  destruct s as [|c s]; simpl; [discriminate|].
  destruct (c =? sep); [discriminate|].
  destruct (split sep s); discriminate.
Qed.

Lemma split_length sep s : (1 <= length (split sep s))%nat.
Proof.
  pose proof (split_not_nil sep s) as H.
  destruct (split sep s); [congruence | simpl; lia].
Qed.

Lemma lstrip_starts_clean s : starts_clean (lstrip s).
Proof.
  induction s as [|c s IH]; simpl; [exact I|].
  destruct (isspace c) eqn:E; [exact IH | exact E].
Qed.

Lemma lstrip_clean s : starts_clean s -> lstrip s = s.
Proof. destruct s as [|c s]; simpl; [reflexivity|]. intros ->. reflexivity. Qed.

Lemma lstrip_snoc s c : isspace c = false -> lstrip (s ++ [c]) = lstrip s ++ [c].
Proof.
  intros Hc. induction s as [|x s IH]; simpl.
  - rewrite Hc. reflexivity.
  - destruct (isspace x); [exact IH | reflexivity].
Qed.

Lemma rstrip_starts_clean s : starts_clean s -> starts_clean (rstrip s).
Proof.
  destruct s as [|c s]; [intros _; exact I|]. simpl. intros Hc.
  unfold rstrip. simpl. rewrite lstrip_snoc by exact Hc.
  rewrite rev_app_distr. simpl. exact Hc.
Qed.

Lemma rstrip_idemp s : rstrip (rstrip s) = rstrip s.
Proof.
  unfold rstrip. rewrite rev_involutive.
  rewrite (lstrip_clean (lstrip _)) by apply lstrip_starts_clean. reflexivity.
Qed.

Lemma strip_idemp s : strip (strip s) = strip s.
Proof.
  unfold strip at 1.
  rewrite (lstrip_clean (strip s)).
  - unfold strip. apply rstrip_idemp.
  - unfold strip. apply rstrip_starts_clean, lstrip_starts_clean.
Qed.

Example strip_line : strip ([32; 9] ++ lit "idfa" ++ [TAB] ++ lit "x" ++ [13; 10]) = lit "idfa" ++ [TAB] ++ lit "x".
Proof. reflexivity. Qed.

Example split_apps : split COMMA (lit "1423,43,,7") = [lit "1423"; lit "43"; []; lit "7"].
Proof. reflexivity. Qed.

Example split_blank : split TAB [] = [[]].
Proof. reflexivity. Qed.

Lemma is_empty_true s : is_empty s = true <-> s = [].
Proof. destruct s; simpl; split; congruence. Qed.

Lemma is_empty_false s : is_empty s = false <-> s <> [].
Proof. destruct s; simpl; split; congruence. Qed.

(** ** The monad: events and outcomes of compound computations *)

Arguments bind : simpl never.
Arguments try_except : simpl never.

Lemma bind_ret_l {A B} (a : A) (k : A -> M B) : bind (ret a) k = k a.
Proof. unfold bind, ret. destruct (k a) as [tr r]. reflexivity. Qed.

Lemma bind_raise {A B} (e : exn) (k : A -> M B) : bind (raise e) k = raise e.
Proof. reflexivity. Qed.

Lemma bind_returns {A B} (m : M A) (k : A -> M B) tr a :
  m = (tr, Ret a) -> bind m k = (tr ++ events (k a), outcome (k a)).
Proof. intros ->. unfold bind, events, outcome. destruct (k a). reflexivity. Qed.

Lemma bind_raises {A B} (m : M A) (k : A -> M B) tr e :
  m = (tr, Raise e) -> bind m k = (tr, Raise e).
Proof. intros ->. reflexivity. Qed.

Lemma M_eta {A} (m : M A) : m = (events m, outcome m).
Proof. destruct m. reflexivity. Qed.

Lemma all_events_ret {A} P (a : A) : all_events P (ret a).
Proof. reflexivity. Qed.

Lemma all_events_raise {A} P e : all_events P (@raise A e).
Proof. reflexivity. Qed.

Lemma all_events_emit P ev : P ev = true -> all_events P (emit ev).
Proof. unfold all_events. simpl. intros ->. reflexivity. Qed.

Lemma all_events_bind {A B} P (m : M A) (k : A -> M B) :
  all_events P m -> (forall a, all_events P (k a)) -> all_events P (bind m k).
Proof.
  unfold all_events, bind. destruct m as [tr [a|e]]; simpl; intros Hm Hk; [|exact Hm].
  specialize (Hk a). destruct (k a) as [tr' r]. simpl in *.
  rewrite forallb_app, Hm, Hk. reflexivity.
Qed.

Lemma all_events_try_except {A} P (m : M A) caught h :
  all_events P m -> (forall e, all_events P (h e)) -> all_events P (try_except m caught h).
Proof.
  unfold all_events, try_except. destruct m as [tr [a|e]]; simpl; intros Hm Hh; [exact Hm|].
  destruct (caught e); [|exact Hm].
  specialize (Hh e). destruct (h e) as [tr' r]. simpl in *.
  rewrite forallb_app, Hm, Hh. reflexivity.
Qed.

Lemma all_events_for_each {A B} P (f : A -> M B) l :
  (forall a, all_events P (f a)) -> all_events P (for_each f l).
Proof.
  intros Hf. induction l as [|a l IH]; simpl; [apply all_events_ret|].
  apply all_events_bind; [apply Hf|]. intros b.
  apply all_events_bind; [exact IH|]. intros bs. apply all_events_ret.
Qed.

Lemma all_events_for_each_if {A B} P (cond : A -> M bool) (f : A -> M B) l :
  (forall a, all_events P (cond a)) -> (forall a, all_events P (f a)) ->
  all_events P (for_each_if cond f l).
Proof.
  intros Hc Hf. induction l as [|a l IH]; simpl; [apply all_events_ret|].
  apply all_events_bind; [apply Hc|]. intros [|]; [|exact IH].
  apply all_events_bind; [apply Hf|]. intros b.
  apply all_events_bind; [exact IH|]. intros bs. apply all_events_ret.
Qed.

Lemma all_events_weaken {A} (P Q : event -> bool) (m : M A) :
  (forall ev, P ev = true -> Q ev = true) -> all_events P m -> all_events Q m.
Proof.
  unfold all_events. intros HPQ. induction (fst m) as [|ev tr IH]; simpl; [reflexivity|].
  intros [H1 H2]%andb_true_iff. rewrite (HPQ _ H1), (IH H2). reflexivity.
Qed.

Lemma is_log_not_store_write ev : is_log ev = true -> not_store_write ev = true.
Proof. destruct ev; cbv; intros H; first [reflexivity | discriminate H]. Qed.

Lemma is_log_not_rename ev : is_log ev = true -> not_rename ev = true.
Proof. destruct ev; cbv; intros H; first [reflexivity | discriminate H]. Qed.

(** ** The parser, case by case *)

Section ParserFacts.

Variable rt : Runtime.

Lemma for_each_int_tokens toks :
  for_each (fun a => int_ rt (strip a)) toks =
  match mapM (fun a => py_int rt (strip a)) toks with
  | Some l => ret l
  | None => raise ValueError
  end.
Proof.
  induction toks as [|a toks IH]; simpl; [reflexivity|].
  unfold int_ at 1. destruct (py_int rt (strip a)) as [n|]; simpl; [|reflexivity].
  rewrite bind_ret_l, IH.
  destruct (mapM _ toks) as [l|]; simpl; [rewrite bind_ret_l|]; reflexivity.
Qed.

Lemma for_each_if_isidigit {B} (f : str -> M B) toks :
  toks <> [] -> for_each_if isidigit f toks = raise AttributeError.
Proof. destruct toks; [congruence | reflexivity]. Qed.

(** Fewer than five fields: rejected. *)
Lemma parse_appsinstalled_short line :
  (length (split TAB (strip line)) < 5)%nat ->
  parse_appsinstalled rt line = ret None.
Proof.
  intros H. unfold parse_appsinstalled.
  apply Nat.ltb_lt in H. rewrite H. reflexivity.
Qed.

(** More than five fields: the unpacking raises. *)
Lemma parse_appsinstalled_long line :
  (5 < length (split TAB (strip line)))%nat ->
  parse_appsinstalled rt line = raise ValueError.
Proof.
  intros H. unfold parse_appsinstalled.
  destruct (length (split TAB (strip line)) <? 5)%nat eqn:E;
    [apply Nat.ltb_lt in E; lia|].
  destruct (split TAB (strip line)) as [|a [|b [|c [|d [|e [|f l]]]]]];
    simpl in H; try lia.
  reflexivity.
Qed.

(** Five fields, one of the identifiers empty: rejected. *)
Lemma parse_appsinstalled_no_identity line t i la lo ap :
  split TAB (strip line) = [t; i; la; lo; ap] ->
  t = [] \/ i = [] ->
  parse_appsinstalled rt line = ret None.
Proof.
  intros Hs Hid. unfold parse_appsinstalled. rewrite Hs. simpl.
  rewrite bind_ret_l.
  destruct Hid as [-> | ->]; simpl; [reflexivity|].
  rewrite orb_true_r. reflexivity.
Qed.

(** Five fields with both identifiers: the whole behaviour of the parser. *)
Lemma parse_appsinstalled_five line t i la lo ap :
  split TAB (strip line) = [t; i; la; lo; ap] ->
  t <> [] -> i <> [] ->
  parse_appsinstalled rt line =
  match int_tokens rt ap with
  | None => raise AttributeError
  | Some l =>
      match py_float rt la, py_float rt lo with
      | Some x, Some y => ret (Some (mkAppsInstalled t i (CFloat x) (CFloat y) l))
      | _, _ =>
          ([Log INFO (InvalidGeo line)],
           Ret (Some (mkAppsInstalled t i (CStr la) (CStr lo) l)))
      end
  end.
Proof.
  intros Hs Ht Hi. unfold parse_appsinstalled. rewrite Hs. simpl.
  rewrite bind_ret_l.
  apply is_empty_false in Ht, Hi. rewrite Ht, Hi. simpl.
  rewrite for_each_int_tokens. unfold int_tokens.
  destruct (mapM _ (split COMMA ap)) as [l|]; simpl.
  - unfold float_. destruct (py_float rt la) as [x|]; simpl.
    + destruct (py_float rt lo) as [y|]; reflexivity.
    + reflexivity.
  - rewrite for_each_if_isidigit by apply split_not_nil. reflexivity.
Qed.

(** The parser writes to the log only. *)
Lemma parse_appsinstalled_only_logs line :
  all_events is_log (parse_appsinstalled rt line).
Proof.
  unfold parse_appsinstalled.
  destruct (length _ <? 5)%nat; [apply all_events_ret|].
  apply all_events_bind.
  { unfold unpack5. destruct (split TAB (strip line)) as [|a [|b [|c [|d [|e [|f l]]]]]];
      first [apply all_events_ret | apply all_events_raise]. }
  intros [[[[t i] la] lo] ap].
  destruct (is_empty t || is_empty i); [apply all_events_ret|].
  apply all_events_bind.
  { apply all_events_try_except.
    - apply all_events_for_each. intros a. unfold int_.
      destruct (py_int rt (strip a)); [apply all_events_ret | apply all_events_raise].
    - intros _. apply all_events_bind.
      + apply all_events_for_each_if; intros a.
        * apply all_events_raise.
        * unfold int_. destruct (py_int rt (strip a));
            [apply all_events_ret | apply all_events_raise].
      + intros l. apply all_events_bind; [apply all_events_emit; reflexivity|].
        intros _. apply all_events_ret. }
  intros l. apply all_events_bind.
  { apply all_events_try_except.
    - unfold float_. destruct (py_float rt la); [|apply all_events_raise].
      rewrite bind_ret_l. destruct (py_float rt lo); [|apply all_events_raise].
      rewrite bind_ret_l. apply all_events_ret.
    - intros _. apply all_events_bind; [apply all_events_emit; reflexivity|].
      intros _. apply all_events_ret. }
  intros [x y]. apply all_events_ret.
Qed.

(** A record comes from a line that is not blank. *)
Lemma parse_appsinstalled_blank : parse_appsinstalled rt [] = ret None.
Proof. reflexivity. Qed.

End ParserFacts.

(** ** The store writer *)

Section WriterFacts.

Variable rt : Runtime.

Lemma apps_extend_fits l :
  forallb (apps_fits rt) l = true -> apps_extend rt l = ret l.
Proof.
  unfold apps_extend. induction l as [|a l IH]; simpl; [reflexivity|].
  intros [Ha Hl]%andb_true_iff. rewrite Ha, bind_ret_l, (IH Hl), bind_ret_l.
  reflexivity.
Qed.

Lemma apps_extend_silent l : events (apps_extend rt l) = [].
Proof.
  unfold apps_extend. induction l as [|a l IH]; simpl; [reflexivity|].
  destruct (apps_fits rt a); [|reflexivity]. rewrite bind_ret_l.
  destruct (for_each _ l) as [tr [bs|e]]; simpl in IH; subst tr; reflexivity.
Qed.

(** The message of a record with float coordinates and fitting app ids. *)
Lemma build_UserApps_ok a la lo :
  lat a = CFloat la -> lon a = CFloat lo ->
  forallb (apps_fits rt) (apps a) = true ->
  build_UserApps rt a = ret (mkUserApps la lo (apps a)).
Proof.
  intros Hla Hlo Hfit. unfold build_UserApps. rewrite Hla, Hlo. simpl.
  rewrite !bind_ret_l, (apps_extend_fits _ Hfit), bind_ret_l. reflexivity.
Qed.

(** A coordinate left as text stops the writer before its [try]. *)
Lemma build_UserApps_str_lat a s : lat a = CStr s -> build_UserApps rt a = raise TypeError.
Proof. intros H. unfold build_UserApps. rewrite H. reflexivity. Qed.

Lemma build_UserApps_silent a : events (build_UserApps rt a) = [].
Proof.
  unfold build_UserApps.
  destruct (lat a); simpl; [reflexivity|]. rewrite bind_ret_l.
  destruct (lon a); simpl; [reflexivity|]. rewrite bind_ret_l.
  pose proof (apps_extend_silent (apps a)) as H.
  destruct (apps_extend rt (apps a)) as [tr [l|e]]; simpl in H; subst tr; reflexivity.
Qed.

Lemma insert_appsinstalled_dry memc_addr a ua :
  build_UserApps rt a = ret ua ->
  insert_appsinstalled rt memc_addr a true =
  ([Log DEBUG (WouldWrite memc_addr (memc_key a) ua)], Ret true).
Proof. intros H. unfold insert_appsinstalled. rewrite H, bind_ret_l. reflexivity. Qed.

Lemma insert_appsinstalled_live memc_addr a ua :
  build_UserApps rt a = ret ua ->
  insert_appsinstalled rt memc_addr a false =
  match memc_set rt memc_addr (memc_key a) (SerializeToString rt ua) with
  | None =>
      ([MemcSet memc_addr (memc_key a) (SerializeToString rt ua)], Ret true)
  | Some e =>
      ([MemcSet memc_addr (memc_key a) (SerializeToString rt ua);
        Log EXCEPTION (CannotWrite memc_addr e)], Ret false)
  end.
Proof.
  intros H. unfold insert_appsinstalled. rewrite H, bind_ret_l.
  unfold memc_set_call.
  destruct (memc_set rt memc_addr (memc_key a) (SerializeToString rt ua));
    reflexivity.
Qed.

Lemma insert_appsinstalled_build_raises memc_addr a dry_run e :
  build_UserApps rt a = raise e ->
  insert_appsinstalled rt memc_addr a dry_run = raise e.
Proof. intros H. unfold insert_appsinstalled. rewrite H. reflexivity. Qed.

(** In dry-run mode the writer writes to the log only. *)
Lemma insert_appsinstalled_dry_only_logs memc_addr a :
  all_events is_log (insert_appsinstalled rt memc_addr a true).
Proof.
  pose proof (build_UserApps_silent a) as Hs.
  destruct (build_UserApps rt a) as [tr [ua|e]] eqn:Hb; simpl in Hs; subst tr.
  - rewrite (insert_appsinstalled_dry memc_addr a ua Hb). reflexivity.
  - rewrite (insert_appsinstalled_build_raises memc_addr a true e Hb). reflexivity.
Qed.

(** Whatever the mode, the writer renames nothing. *)
Lemma insert_appsinstalled_no_rename memc_addr a dry_run :
  all_events not_rename (insert_appsinstalled rt memc_addr a dry_run).
Proof.
  pose proof (build_UserApps_silent a) as Hs.
  destruct (build_UserApps rt a) as [tr [ua|e]] eqn:Hb; simpl in Hs; subst tr.
  - destruct dry_run.
    + rewrite (insert_appsinstalled_dry memc_addr a ua Hb). reflexivity.
    + rewrite (insert_appsinstalled_live memc_addr a ua Hb).
      destruct (memc_set rt _ _ _); reflexivity.
  - rewrite (insert_appsinstalled_build_raises memc_addr a dry_run e Hb). reflexivity.
Qed.

End WriterFacts.

(** ** One line *)

Section LineFacts.

Variable rt : Runtime.

Lemma handle_line_blank line options device_memc :
  strip line = [] -> handle_line rt line options device_memc = ret SKIP.
Proof. intros H. unfold handle_line. rewrite H. reflexivity. Qed.

Lemma fields_not_blank line :
  (5 <= length (split TAB (strip line)))%nat -> is_empty (strip line) = false.
Proof.
  destruct (strip line); simpl; [lia | reflexivity].
Qed.

(** A line of fewer than five fields that is not blank: Error. *)
Lemma handle_line_short line options device_memc :
  strip line <> [] ->
  (length (split TAB (strip line)) < 5)%nat ->
  handle_line rt line options device_memc = ret ERROR.
Proof.
  intros Hne H. unfold handle_line.
  apply is_empty_false in Hne. rewrite Hne.
  rewrite parse_appsinstalled_short by (rewrite strip_idemp; exact H).
  rewrite bind_ret_l. reflexivity.
Qed.

(** A line of more than five fields: the exception of the unpacking leaves
    [handle_line]. *)
Lemma handle_line_long line options device_memc :
  (5 < length (split TAB (strip line)))%nat ->
  handle_line rt line options device_memc = raise ValueError.
Proof.
  intros H. unfold handle_line. rewrite fields_not_blank by lia.
  rewrite parse_appsinstalled_long by (rewrite strip_idemp; exact H).
  reflexivity.
Qed.

(** A line of five fields with an app id that is no integer: the exception
    of the handler leaves [handle_line]. *)
Lemma handle_line_bad_app line options device_memc t i la lo ap :
  split TAB (strip line) = [t; i; la; lo; ap] ->
  t <> [] -> i <> [] -> int_tokens rt ap = None ->
  handle_line rt line options device_memc = raise AttributeError.
Proof.
  intros Hs Ht Hi Hap. unfold handle_line.
  rewrite fields_not_blank by (rewrite Hs; simpl; lia).
  rewrite (parse_appsinstalled_five rt _ t i la lo ap), Hap;
    [reflexivity | rewrite strip_idemp; exact Hs | exact Ht | exact Hi].
Qed.

(** No line makes [handle_line] rename a file. *)
Lemma handle_line_no_rename line options device_memc :
  all_events not_rename (handle_line rt line options device_memc).
Proof.
  unfold handle_line. destruct (is_empty (strip line)); [reflexivity|].
  apply all_events_bind.
  { eapply all_events_weaken; [apply is_log_not_rename|].
    apply parse_appsinstalled_only_logs. }
  intros [a|]; [|reflexivity].
  destruct (device_memc !! dev_type a) as [[|c addr]|].
  - apply all_events_bind; [reflexivity | intros _; reflexivity].
  - apply all_events_bind; [apply insert_appsinstalled_no_rename|].
    intros ok. reflexivity.
  - apply all_events_bind; [reflexivity | intros _; reflexivity].
Qed.

(** In dry-run mode [handle_line] writes to the log only. *)
Lemma handle_line_dry_only_logs line options device_memc :
  dry options = true ->
  all_events is_log (handle_line rt line options device_memc).
Proof.
  intros Hdry. unfold handle_line. destruct (is_empty (strip line)); [reflexivity|].
  apply all_events_bind; [apply parse_appsinstalled_only_logs|].
  intros [a|]; [|reflexivity].
  destruct (device_memc !! dev_type a) as [[|c addr]|].
  - apply all_events_bind; [reflexivity | intros _; reflexivity].
  - rewrite Hdry. apply all_events_bind; [apply insert_appsinstalled_dry_only_logs|].
    intros ok. reflexivity.
  - apply all_events_bind; [reflexivity | intros _; reflexivity].
Qed.

End LineFacts.

(** ** The parser and the line boundary *)

(** C1.  Every line is meant to end in one of the outcomes Skip, Ok and
    Error, a line whose number of fields is not five included.  On a line
    of six tab-separated fields [handle_line] returns no outcome: the
    [ValueError] of the unpacking leaves it, whatever the runtime, the
    options and the shard table. *)
Theorem handle_line_six_fields_raises rt options device_memc :
  handle_line rt line_six_fields options device_memc = ([], Raise ValueError).
Proof. apply handle_line_long. vm_compute. lia. Qed.

(** C3.  A record whose app ids are not all integers is meant to be kept,
    with the integer tokens only.  On a line of five fields with the app
    ids [1423,x,567] the handler of the [ValueError] calls [isidigit],
    which [str] does not have: [AttributeError] leaves the parser and
    [handle_line], and there is neither a record nor a diagnostic. *)
Theorem parse_appsinstalled_bad_app_raises store options device_memc :
  parse_appsinstalled (demo_runtime store) line_bad_app = ([], Raise AttributeError) /\
  handle_line (demo_runtime store) line_bad_app options device_memc
  = ([], Raise AttributeError).
Proof.
  split; [vm_compute; reflexivity|].
  apply (handle_line_bad_app _ _ _ _ (lit "idfa") (lit "1rfw452y52g2gq4g")
           (lit "55.55") (lit "42.42") (lit "1423,x,567"));
    solve [vm_compute; reflexivity | discriminate].
Qed.

(** C6, as stated, fails on a line of more than five fields: the line
    [line_bad_geo_six] has six, both identifiers, integer app ids and the
    latitude [abc], and the parser returns no record for it; the unpacking
    into five names raises [ValueError] before the coordinates are read. *)
Lemma parse_appsinstalled_bad_geo_six_raises :
  (5 <= length (split TAB (strip line_bad_geo_six)))%nat /\
  parse_appsinstalled (demo_runtime store_up) line_bad_geo_six
  = ([], Raise ValueError).
Proof. split; [vm_compute; lia | apply parse_appsinstalled_long; vm_compute; lia]. Qed.

(** C6, amended.  For every line of exactly five tab-separated fields with
    both identifiers and an all-integer app-id list, when the latitude or
    the longitude is no float the parser still returns the record: both
    coordinates are the text of their fields and one diagnostic is
    logged. *)
Theorem parse_appsinstalled_keeps_bad_coords rt line t i la lo ap l :
  split TAB (strip line) = [t; i; la; lo; ap] ->
  t <> [] -> i <> [] -> int_tokens rt ap = Some l ->
  py_float rt la = None \/ py_float rt lo = None ->
  parse_appsinstalled rt line =
  ([Log INFO (InvalidGeo line)],
   Ret (Some (mkAppsInstalled t i (CStr la) (CStr lo) l))).
Proof.
  intros Hs Ht Hi Hap Hgeo.
  rewrite (parse_appsinstalled_five rt line t i la lo ap Hs Ht Hi), Hap.
  destruct Hgeo as [-> | ->]; [reflexivity|].
  destruct (py_float rt la); reflexivity.
Qed.

(** The latitude [abc]: the longitude [42.42] stays text as well. *)
Lemma parse_appsinstalled_keeps_bad_coords_witness :
  parse_appsinstalled (demo_runtime store_down) line_bad_geo
  = ([Log INFO (InvalidGeo line_bad_geo)], Ret (Some record_bad_geo)).
Proof.
  apply (parse_appsinstalled_keeps_bad_coords (demo_runtime store_down) line_bad_geo
           (lit "idfa") (lit "1rfw452y52g2gq4g") (lit "abc") (lit "42.42")
           (lit "1423,43") [1423; 43]%Z);
    solve [vm_compute; reflexivity | discriminate | left; vm_compute; reflexivity].
Defined.

(** ** The store writer *)

(** C4.  A live-mode write does not always end in success or in a
    reported failure: the parser keeps the record of [line_bad_geo] with
    its coordinates as text, and the writer raises [TypeError] on that
    record while it builds the message (line 42), before it reaches its
    [try] (line 49); nothing is logged, nothing is returned and the
    exception goes to the caller. *)
Lemma insert_appsinstalled_str_coords_raises :
  parse_appsinstalled (demo_runtime store_up) line_bad_geo
  = ([Log INFO (InvalidGeo line_bad_geo)], Ret (Some record_bad_geo)) /\
  insert_appsinstalled (demo_runtime store_up) (lit "127.0.0.1:33013")
    record_bad_geo false
  = ([], Raise TypeError).
Proof. split; vm_compute; reflexivity. Qed.

(** What the [try] of the writer does cover: for a record with float
    coordinates and app ids in the range of the message field, a live-mode
    write makes one call of the store client; when the call returns,
    whatever it returns, the writer returns [True], and when it raises the
    exception is caught, logged and [False] is returned. *)
Theorem insert_appsinstalled_live_absorbs rt memc_addr a la lo :
  lat a = CFloat la -> lon a = CFloat lo ->
  forallb (apps_fits rt) (apps a) = true ->
  let key := memc_key a in
  let packed := SerializeToString rt (mkUserApps la lo (apps a)) in
  insert_appsinstalled rt memc_addr a false =
  match memc_set rt memc_addr key packed with
  | None => ([MemcSet memc_addr key packed], Ret true)
  | Some e =>
      ([MemcSet memc_addr key packed; Log EXCEPTION (CannotWrite memc_addr e)],
       Ret false)
  end.
Proof.
  intros Hla Hlo Hfit key packed.
  apply insert_appsinstalled_live, build_UserApps_ok; assumption.
Qed.

(** The record of [line_good] written while the store is down: one call,
    one logged exception, failure. *)
Lemma insert_appsinstalled_live_absorbs_witness :
  insert_appsinstalled (demo_runtime store_down) (lit "127.0.0.1:33013")
    record_good false
  = ([MemcSet (lit "127.0.0.1:33013") (lit "idfa:1rfw452y52g2gq4g") [];
      Log EXCEPTION (CannotWrite (lit "127.0.0.1:33013") (OtherException 111))],
     Ret false).
Proof.
  exact (insert_appsinstalled_live_absorbs (demo_runtime store_down)
           (lit "127.0.0.1:33013") record_good 55.55%float 42.42%float
           eq_refl eq_refl eq_refl).
Defined.

(** ** Routing and dry runs *)

Example parse_line_good store :
  parse_appsinstalled (demo_runtime store) line_good = ret (Some record_good).
Proof. vm_compute. reflexivity. Qed.

(** C5.  In dry-run mode no line makes [handle_line] call the store client,
    and a line that is valid in everything but the write (five fields, both
    identifiers, integer app ids in the range of the message field, float
    coordinates, a device type with an endpoint) has the outcome Ok, after
    one debug message with the key and the value that would be written. *)
Theorem dry_run_writes_nothing rt options device_memc :
  dry options = true ->
  (forall line,
     all_events not_store_write (handle_line rt line options device_memc)) /\
  (forall line t i la lo ap l x y addr,
     split TAB (strip line) = [t; i; la; lo; ap] -> t <> [] -> i <> [] ->
     int_tokens rt ap = Some l ->
     py_float rt la = Some x -> py_float rt lo = Some y ->
     forallb (apps_fits rt) l = true ->
     device_memc !! t = Some addr -> addr <> [] ->
     handle_line rt line options device_memc =
     ([Log DEBUG (WouldWrite addr (t ++ COLON :: i) (mkUserApps x y l))], Ret OK)).
Proof.
  intros Hdry. split.
  - intros line. eapply all_events_weaken; [apply is_log_not_store_write|].
    apply handle_line_dry_only_logs, Hdry.
  - intros line t i la lo ap l x y addr Hs Ht Hi Hap Hx Hy Hfit Hdev Haddr.
    unfold handle_line. rewrite fields_not_blank by (rewrite Hs; simpl; lia).
    rewrite (parse_appsinstalled_five rt _ t i la lo ap), Hap, Hx, Hy;
      [| rewrite strip_idemp; exact Hs | exact Ht | exact Hi].
    rewrite bind_ret_l. simpl. rewrite Hdev.
    destruct addr as [|c addr]; [congruence|].
    rewrite Hdry.
    erewrite insert_appsinstalled_dry
      by (apply build_UserApps_ok; [reflexivity | reflexivity | exact Hfit]).
    erewrite bind_returns by reflexivity. reflexivity.
Qed.

(** [line_good] in a dry run with the default endpoints, the store down. *)
Lemma dry_run_writes_nothing_witness :
  all_events not_store_write
    (handle_line (demo_runtime store_down) line_good (default_options true)
       (device_memc_of (default_options true))) /\
  handle_line (demo_runtime store_down) line_good (default_options true)
    (device_memc_of (default_options true))
  = ([Log DEBUG
        (WouldWrite (lit "127.0.0.1:33013") (lit "idfa:1rfw452y52g2gq4g")
           (mkUserApps 55.55%float 42.42%float [1423; 43; 567; 3; 7; 23]%Z))],
     Ret OK).
Proof.
  destruct (dry_run_writes_nothing (demo_runtime store_down) (default_options true)
              (device_memc_of (default_options true)) eq_refl) as [Hnone Hok].
  split; [apply Hnone|].
  apply (Hok line_good (lit "idfa") (lit "1rfw452y52g2gq4g") (lit "55.55")
           (lit "42.42") (lit "1423,43,567,3,7,23"));
    solve [vm_compute; reflexivity | discriminate].
Defined.

(** C8.  A well-formed line (five fields, both identifiers, integer app
    ids) whose device type has no entry in the shard table has the outcome
    Error: after what the parser logs about the coordinates, the unknown
    device type is logged, and the store client is not called. *)
Theorem unknown_device_is_error rt line options device_memc t i la lo ap l :
  split TAB (strip line) = [t; i; la; lo; ap] -> t <> [] -> i <> [] ->
  int_tokens rt ap = Some l ->
  device_memc !! t = None ->
  handle_line rt line options device_memc =
  (geo_events rt (strip line) la lo ++ [Log LVL_ERROR (UnknownDevice t)], Ret ERROR)
  /\ all_events not_store_write (handle_line rt line options device_memc).
Proof.
  intros Hs Ht Hi Hap Hdev.
  assert (He : handle_line rt line options device_memc =
               (geo_events rt (strip line) la lo ++ [Log LVL_ERROR (UnknownDevice t)],
                Ret ERROR)).
  { unfold handle_line. rewrite fields_not_blank by (rewrite Hs; simpl; lia).
    rewrite (parse_appsinstalled_five rt _ t i la lo ap), Hap;
      [| rewrite strip_idemp; exact Hs | exact Ht | exact Hi].
    unfold geo_events.
    destruct (py_float rt la) as [x|]; [destruct (py_float rt lo) as [y|]|].
    - rewrite bind_ret_l. simpl. rewrite Hdev. reflexivity.
    - erewrite bind_returns by reflexivity. simpl. rewrite Hdev. reflexivity.
    - erewrite bind_returns by reflexivity. simpl. rewrite Hdev. reflexivity. }
  split; [exact He|]. rewrite He. unfold all_events, geo_events. simpl.
  destruct (py_float rt la); [destruct (py_float rt lo)|]; reflexivity.
Qed.

(** A line for the device type [abcd], which the default table lacks. *)
Lemma unknown_device_is_error_witness :
  handle_line (demo_runtime store_up) line_unknown_device (default_options false)
    (device_memc_of (default_options false))
  = ([Log LVL_ERROR (UnknownDevice (lit "abcd"))], Ret ERROR)
  /\ all_events not_store_write
       (handle_line (demo_runtime store_up) line_unknown_device
          (default_options false) (device_memc_of (default_options false))).
Proof.
  apply (unknown_device_is_error (demo_runtime store_up) line_unknown_device
           (default_options false) (device_memc_of (default_options false))
           (lit "abcd") (lit "1rfw452y52g2gq4g") (lit "55.55") (lit "42.42")
           (lit "1423,43") [1423; 43]%Z);
    solve [vm_compute; reflexivity | discriminate].
Defined.

(** ** The error-rate gate *)

Lemma count_results_from results processed errors :
  fold_left count_result results (processed, errors) =
  (processed + tally is_OK results, errors + tally (fun r => negb (is_OK r)) results)%Z.
Proof.
  revert processed errors. unfold tally.
  induction results as [|r results IH]; intros processed errors; simpl.
  - f_equal; lia.
  - destruct r; simpl; rewrite IH; f_equal; lia.
Qed.

(** The counters after the loop: every result that is not Ok is counted as
    an error, Skip included. *)
Lemma count_results_tally results :
  count_results results =
  (tally is_OK results, tally (fun r => negb (is_OK r)) results).
Proof. unfold count_results. rewrite count_results_from. reflexivity. Qed.

(** The error counter holds the Error results and the Skip results. *)
Lemma errors_count_skip results :
  snd (count_results results) = (tally is_ERROR results + tally is_SKIP results)%Z.
Proof.
  rewrite count_results_tally. unfold tally. simpl.
  induction results as [|r results IH]; [reflexivity|].
  destruct r; simpl in *; lia.
Qed.

Lemma rate_verdict_returns processed errors : outcome (rate_verdict processed errors) = Ret tt.
Proof.
  unfold rate_verdict. destruct (processed =? 0)%Z; [reflexivity|].
  destruct (PrimFloat.ltb _ _); reflexivity.
Qed.

Lemma rate_verdict_only_logs processed errors :
  all_events is_log (rate_verdict processed errors).
Proof.
  unfold rate_verdict. destruct (processed =? 0)%Z; [reflexivity|].
  destruct (PrimFloat.ltb _ _); reflexivity.
Qed.

Lemma calculate_raiting_returns results : outcome (calculate_raiting results) = Ret tt.
Proof.
  unfold calculate_raiting. destruct (count_results results). apply rate_verdict_returns.
Qed.

Lemma calculate_raiting_only_logs results : all_events is_log (calculate_raiting results).
Proof.
  unfold calculate_raiting. destruct (count_results results). apply rate_verdict_only_logs.
Qed.

(** C2.  The gate is meant to count Ok results as processed and Error
    results as errors, and to leave Skip out of both.  The loop counts
    every result that is not Ok as an error: for the results Ok, Skip the
    counters are 1 and 1 and the verdict is the failed load, where the
    results Ok alone give the successful load.  A file of [line_good] and
    a blank line, loaded in dry-run mode, ends with that failed verdict. *)
Theorem calculate_raiting_counts_skip :
  count_results [OK; SKIP] = (1, 1)%Z /\
  calculate_raiting [OK; SKIP]
  = ([Log LVL_ERROR (HighRate 1%float NORMAL_ERR_RATE)], Ret tt) /\
  calculate_raiting [OK] = ([Log INFO (Acceptable 0%float)], Ret tt) /\
  (forall store,
     process_file (demo_runtime store) (lit "/data/a.tsv") [line_good; lit " "]
       (default_options true) (device_memc_of (default_options true))
     = ([Log INFO (Processing (lit "/data/a.tsv"));
         Log DEBUG
           (WouldWrite (lit "127.0.0.1:33013") (lit "idfa:1rfw452y52g2gq4g")
              (mkUserApps 55.55%float 42.42%float [1423; 43; 567; 3; 7; 23]%Z));
         Rename (lit "/data/a.tsv") (lit "/data/.a.tsv");
         Log LVL_ERROR (HighRate 1%float NORMAL_ERR_RATE)],
        Ret tt)).
Proof. repeat split; intros; vm_compute; reflexivity. Qed.

Lemma gate_agrees_to_200 :
  forallb
    (fun p => forallb (fun e => gate_agrees (Z.of_nat p) (Z.of_nat e)) (seq 0 201))
    (seq 1 200)
  = true.
Proof. vm_compute. reflexivity. Qed.

(** C7.  Given the two counters, with [processed > 0] the verdict is the
    successful load exactly when the float quotient [errors / processed]
    is below [NORMAL_ERR_RATE = 0.01], and the failed load otherwise; for
    counters up to 200 that float test is the exact comparison
    [100 * errors < processed].  100 processed lines give the successful
    load with 0 errors and the failed load with 2 errors; with
    [processed = 0] nothing is logged. *)
Theorem error_rate_gate :
  (forall processed errors : Z,
     (0 < processed)%Z ->
     let err_rate := PrimFloat.div (float_of_int errors) (float_of_int processed) in
     (rate_verdict processed errors = ([Log INFO (Acceptable err_rate)], Ret tt)
      <-> PrimFloat.ltb err_rate NORMAL_ERR_RATE = true) /\
     (rate_verdict processed errors
      = ([Log LVL_ERROR (HighRate err_rate NORMAL_ERR_RATE)], Ret tt)
      <-> PrimFloat.ltb err_rate NORMAL_ERR_RATE = false)) /\
  (forall processed errors : Z,
     (0 < processed <= 200)%Z -> (0 <= errors <= 200)%Z ->
     PrimFloat.ltb (PrimFloat.div (float_of_int errors) (float_of_int processed))
       NORMAL_ERR_RATE
     = (100 * errors <? processed)%Z) /\
  rate_verdict 100 0 = ([Log INFO (Acceptable 0%float)], Ret tt) /\
  rate_verdict 100 2
  = ([Log LVL_ERROR (HighRate 0.02%float 0.01%float)], Ret tt) /\
  (forall errors : Z, rate_verdict 0 errors = ([], Ret tt)) /\
  (forall results,
     calculate_raiting results =
     rate_verdict (tally is_OK results) (tally (fun r => negb (is_OK r)) results)).
Proof.
  split; [|split; [|split; [|split; [|split]]]].
  - intros processed errors Hpos err_rate. unfold rate_verdict.
    destruct (processed =? 0)%Z eqn:E; [apply Z.eqb_eq in E; lia|].
    fold err_rate. destruct (PrimFloat.ltb err_rate NORMAL_ERR_RATE);
      split; split; intros H; first [reflexivity | discriminate H].
  - intros processed errors Hp He.
    pose proof gate_agrees_to_200 as H.
    rewrite forallb_forall in H.
    specialize (H (Z.to_nat processed) ltac:(apply in_seq; lia)).
    rewrite forallb_forall in H.
    specialize (H (Z.to_nat errors) ltac:(apply in_seq; lia)).
    rewrite !Z2Nat.id in H by lia.
    unfold gate_agrees in H. apply Bool.eqb_prop in H. exact H.
  - vm_compute. reflexivity.
  - vm_compute. reflexivity.
  - intros errors. reflexivity.
  - intros results. unfold calculate_raiting. rewrite count_results_tally. reflexivity.
Qed.

(** One error in 100 processed lines: the rate is the threshold itself, not
    below it. *)
Lemma error_rate_gate_witness :
  (0 < 100)%Z /\
  rate_verdict 100 1
  = ([Log LVL_ERROR (HighRate 0.01%float NORMAL_ERR_RATE)], Ret tt).
Proof.
  split; [lia|].
  apply (proj1 error_rate_gate 100%Z 1%Z ltac:(lia)). vm_compute. reflexivity.
Defined.

(** ** One file *)

Lemma for_each_returns {A B} (f : A -> M B) l bs :
  Forall2 (fun a b => outcome (f a) = Ret b) l bs ->
  for_each f l = (flat_map (fun a => events (f a)) l, Ret bs).
Proof.
  induction 1 as [|a b l bs Hab _ IH]; simpl; [reflexivity|].
  rewrite (bind_returns (f a) _ (events (f a)) b)
    by (rewrite <- Hab; apply M_eta).
  rewrite IH. erewrite bind_returns by reflexivity.
  simpl. rewrite app_nil_r. reflexivity.
Qed.

Section FileFacts.

Variable rt : Runtime.

Lemma dot_rename_dotted path : dot_rename path = emit (Rename path (dotted path)).
Proof. unfold dot_rename, dotted. destruct (os_path_split path). reflexivity. Qed.

(** C9.  When every line of a file has an outcome, [process_file] logs the
    start, then runs every line, then renames the file to its dotted name,
    and only then computes the verdict: the rename is there whatever the
    verdict, it is the only one, and every event of every line comes
    before it. *)
Theorem rename_after_all_lines filename fd options device_memc results :
  Forall2 (fun line r => outcome (handle_line rt line options device_memc) = Ret r)
    fd results ->
  process_file rt filename fd options device_memc =
  ([Log INFO (Processing filename)]
   ++ flat_map (fun line => events (handle_line rt line options device_memc)) fd
   ++ [Rename filename (dotted filename)]
   ++ events (calculate_raiting results),
   Ret tt)
  /\ forallb not_rename
       (flat_map (fun line => events (handle_line rt line options device_memc)) fd)
     = true
  /\ forallb not_rename (events (calculate_raiting results)) = true.
Proof.
  intros Hfd. split; [|split].
  - unfold process_file, pool_map.
    rewrite (for_each_returns _ fd results Hfd).
    unfold emit at 1. erewrite bind_returns by reflexivity.
    erewrite bind_returns by reflexivity.
    rewrite dot_rename_dotted. unfold emit. erewrite bind_returns by reflexivity.
    simpl. rewrite calculate_raiting_returns. reflexivity.
  - clear Hfd. induction fd as [|x fd IH]; simpl; [reflexivity|].
    rewrite forallb_app, IH, andb_true_r. apply handle_line_no_rename.
  - apply (all_events_weaken is_log); [apply is_log_not_rename|].
    apply calculate_raiting_only_logs.
Qed.

End FileFacts.

(** A file of a good line, a blank line and a line for an unknown device,
    loaded live: the verdict is the failed load and the file is renamed
    before it is logged. *)
Lemma rename_after_all_lines_witness :
  process_file (demo_runtime store_up) (lit "/data/a.tsv")
    [line_good; lit " "; line_unknown_device]
    (default_options false) (device_memc_of (default_options false))
  = ([Log INFO (Processing (lit "/data/a.tsv"));
      MemcSet (lit "127.0.0.1:33013") (lit "idfa:1rfw452y52g2gq4g") [];
      Log LVL_ERROR (UnknownDevice (lit "abcd"));
      Rename (lit "/data/a.tsv") (lit "/data/.a.tsv");
      Log LVL_ERROR (HighRate 2%float NORMAL_ERR_RATE)],
     Ret tt).
Proof.
  refine (proj1 (rename_after_all_lines (demo_runtime store_up) (lit "/data/a.tsv")
                   [line_good; lit " "; line_unknown_device]
                   (default_options false) (device_memc_of (default_options false))
                   [OK; SKIP; ERROR] _)).
  repeat constructor; vm_compute; reflexivity.
Defined.

(** ** Paths *)

Example split_data_path :
  os_path_split (lit "/data/appsinstalled/a.tsv.gz") = (lit "/data/appsinstalled", lit "a.tsv.gz")
  /\ os_path_split (lit "a.tsv.gz") = ([], lit "a.tsv.gz")
  /\ os_path_split (lit "/a.tsv.gz") = (lit "/", lit "a.tsv.gz")
  /\ os_path_split (lit "/data//a.tsv.gz") = (lit "/data", lit "a.tsv.gz").
Proof. repeat split. Qed.

Example dotted_data_path :
  dotted (lit "/data/appsinstalled/a.tsv.gz") = lit "/data/appsinstalled/.a.tsv.gz"
  /\ dotted (lit "a.tsv.gz") = lit ".a.tsv.gz".
Proof. repeat split. Qed.

Lemma cut_no_slash n : no_slash n = true -> cut_after_last_slash n = ([], n).
Proof.
  induction n as [|c n IH]; simpl; [reflexivity|].
  intros [Hc Hn]%andb_true_iff. rewrite (IH Hn).
  apply negb_true_iff in Hc. rewrite Hc. reflexivity.
Qed.

Lemma cut_app_slash d n :
  no_slash n = true -> cut_after_last_slash (d ++ SLASH :: n) = (d ++ [SLASH], n).
Proof.
  intros Hn. induction d as [|c d IH]; simpl.
  - rewrite (cut_no_slash n Hn). reflexivity.
  - rewrite IH. destruct (d ++ [SLASH]) eqn:E; [|reflexivity].
    destruct d; discriminate E.
Qed.

Lemma cut_tail_no_slash p : no_slash (snd (cut_after_last_slash p)) = true.
Proof.
  induction p as [|c p IH]; simpl; [reflexivity|].
  destruct (cut_after_last_slash p) as [[|h hs] t]; simpl in *; [|exact IH].
  destruct (c =? SLASH) eqn:E; simpl; [exact IH|]. rewrite E, IH. reflexivity.
Qed.

Lemma cut_app p :
  fst (cut_after_last_slash p) ++ snd (cut_after_last_slash p) = p.
Proof.
  induction p as [|c p IH]; simpl; [reflexivity|].
  destruct (cut_after_last_slash p) as [[|h hs] t]; simpl in *.
  - destruct (c =? SLASH); simpl; rewrite IH; reflexivity.
  - rewrite IH. reflexivity.
Qed.

Lemma basename_of_cut p : basename_of p = snd (cut_after_last_slash p).
Proof.
  unfold basename_of, os_path_split.
  destruct (cut_after_last_slash p) as [h t].
  destruct (negb (is_empty h) && negb (forallb (N.eqb SLASH) h)); reflexivity.
Qed.

Lemma basename_of_no_slash p : no_slash (basename_of p) = true.
Proof. rewrite basename_of_cut. apply cut_tail_no_slash. Qed.

Lemma basename_of_name n : no_slash n = true -> basename_of n = n.
Proof. intros Hn. rewrite basename_of_cut, (cut_no_slash n Hn). reflexivity. Qed.

Lemma no_slash_startswith n : no_slash n = true -> startswith_slash n = false.
Proof.
  destruct n as [|c n]; simpl; [reflexivity|].
  intros [Hc _]%andb_true_iff. apply negb_true_iff in Hc. exact Hc.
Qed.

Lemma endswith_slash_snoc d : endswith_slash d = true -> exists d', d = d' ++ [SLASH].
Proof.
  unfold endswith_slash. destruct (rev d) as [|c r] eqn:E; simpl; [discriminate|].
  intros Hc. apply N.eqb_eq in Hc. subst c. exists (rev r).
  rewrite <- (rev_involutive d), E. reflexivity.
Qed.

(** The last component of [os.path.join(d, n)] is the name [n]. *)
Lemma basename_of_join d n : no_slash n = true -> basename_of (os_path_join d n) = n.
Proof.
  intros Hn. rewrite basename_of_cut. unfold os_path_join.
  rewrite (no_slash_startswith n Hn).
  destruct (is_empty d) eqn:Ed; simpl.
  - apply is_empty_true in Ed. subst d. simpl. rewrite (cut_no_slash n Hn). reflexivity.
  - destruct (endswith_slash d) eqn:Es.
    + destruct (endswith_slash_snoc d Es) as [d' ->].
      rewrite <- app_assoc. simpl. rewrite (cut_app_slash d' n Hn). reflexivity.
    + rewrite (cut_app_slash d n Hn). reflexivity.
Qed.

(** The last component of the dotted name is the last component of the
    path after a dot. *)
Lemma basename_of_dotted p : basename_of (dotted p) = DOT :: basename_of p.
Proof.
  unfold dotted. pose proof (basename_of_no_slash p) as Hn. unfold basename_of in *.
  destruct (os_path_split p) as [head fn]. simpl in *.
  apply (basename_of_join head (DOT :: fn)). simpl. exact Hn.
Qed.

Lemma lstrip_slash_nil l : lstrip_slash l = [] -> forallb (N.eqb SLASH) l = true.
Proof.
  induction l as [|c l IH]; [reflexivity|].
  cbn [lstrip_slash forallb]. destruct (c =? SLASH) eqn:E; [|discriminate].
  intros H. apply N.eqb_eq in E. subst c. rewrite N.eqb_refl. apply IH, H.
Qed.

Lemma rstrip_slash_nil h : rstrip_slash h = [] -> forallb (N.eqb SLASH) h = true.
Proof.
  unfold rstrip_slash. intros H.
  assert (Hl : lstrip_slash (rev h) = []).
  { rewrite <- (rev_involutive (lstrip_slash (rev h))), H. reflexivity. }
  apply lstrip_slash_nil in Hl. rewrite forallb_forall in *.
  intros c Hc. apply Hl, in_rev. rewrite rev_involutive. exact Hc.
Qed.

(** A path with no directory part is its own last component. *)
Lemma basename_of_no_dirname p : fst (os_path_split p) = [] -> basename_of p = p.
Proof.
  unfold basename_of, os_path_split. pose proof (cut_app p) as Hp.
  destruct (cut_after_last_slash p) as [h t]. simpl in Hp.
  destruct (negb (is_empty h) && negb (forallb (N.eqb SLASH) h)) eqn:E; simpl.
  - intros Hr. apply rstrip_slash_nil in Hr.
    apply andb_true_iff in E as [_ E]. rewrite Hr in E. discriminate E.
  - intros ->. exact Hp.
Qed.

Lemma dotted_basename_differs p : basename_of (dotted p) <> basename_of p.
Proof.
  rewrite basename_of_dotted. intros H.
  apply (f_equal (@length N)) in H. simpl in H. lia.
Qed.

(** ** Discovery *)

Section GlobFacts.

Variable rt : Runtime.

Lemma listdir_no_slash fs d dironly x :
  names_ok fs -> In x (listdir fs d dironly) -> no_slash x = true.
Proof.
  unfold listdir. intros Hok Hx.
  apply in_map_iff in Hx as [[n b] [<- Hin]].
  apply list_elem_of_In, list_elem_of_filter in Hin as [_ Hin].
  apply list_elem_of_In in Hin. eapply Hok, Hin.
Qed.

(** [_glob1] selects listed names, and no hidden one unless the pattern is
    hidden itself. *)
Lemma glob1_selects fs d pat dironly x :
  In x (glob1 rt fs d pat dironly) ->
  In x (listdir fs d dironly) /\ (ishidden pat = false -> ishidden x = false).
Proof.
  unfold glob1. intros Hx%list_elem_of_In.
  apply list_elem_of_filter in Hx as [_ Hx]. destruct (ishidden pat).
  - split; [apply list_elem_of_In, Hx | discriminate].
  - apply list_elem_of_filter in Hx as [Hh Hx].
    split; [apply list_elem_of_In, Hx|]. intros _.
    apply Is_true_true, negb_true_iff in Hh. exact Hh.
Qed.

(** [_glob0] selects at most the name it is given. *)
Lemma glob0_selects fs d base dironly x : In x (glob0 fs d base dironly) -> x = base.
Proof.
  unfold glob0.
  destruct (is_empty base); [destruct (isdir fs d) | destruct (lexists fs _)];
    simpl; intros H;
    first [contradiction | destruct H as [H|H]; [congruence | contradiction]].
Qed.

Lemma iglob_rec_unfold fuel fs pathname dironly :
  iglob_rec rt fuel fs pathname dironly =
  let '(dirname, basename) := os_path_split pathname in
  if negb (has_magic pathname) then
    if is_empty basename then
      if isdir fs dirname then [pathname] else []
    else
      if lexists fs pathname then [pathname] else []
  else if is_empty dirname then glob1 rt fs [] basename dironly
  else
    let dirs :=
      if negb (bool_decide (dirname = pathname)) && has_magic dirname then
        match fuel with
        | S fuel' => iglob_rec rt fuel' fs dirname true
        | O => []
        end
      else [dirname] in
    let glob_in_dir := if has_magic basename then glob1 rt else glob0 in
    flat_map
      (fun dirname => map (os_path_join dirname) (glob_in_dir fs dirname basename dironly))
      dirs.
Proof. destruct fuel; reflexivity. Qed.

(** What [iglob] can select: without a wildcard the path itself; with one,
    a path whose last component is either matched by the last component of
    the pattern, hidden only if that is hidden, or is that component. *)
Lemma iglob_rec_selects fuel fs p dironly x :
  names_ok fs -> In x (iglob_rec rt fuel fs p dironly) ->
  if has_magic p
  then (has_magic (basename_of p) = true /\
        (ishidden (basename_of p) = false -> ishidden (basename_of x) = false))
       \/ (has_magic (basename_of p) = false /\ basename_of x = basename_of p)
  else x = p.
Proof.
  intros Hok. rewrite iglob_rec_unfold.
  pose proof (basename_of_no_dirname p) as Hnodir.
  pose proof (basename_of_no_slash p) as Hbase.
  unfold basename_of in *.
  destruct (os_path_split p) as [dirname basename]. simpl in *.
  destruct (has_magic p) eqn:Hm; simpl.
  - destruct (is_empty dirname) eqn:Ed.
    + apply is_empty_true in Ed. specialize (Hnodir Ed). subst basename.
      intros Hx. apply glob1_selects in Hx as [Hl Hh].
      left. split; [exact Hm|]. intros Hp. fold (basename_of x).
      rewrite (basename_of_name x (listdir_no_slash _ _ _ _ Hok Hl)). exact (Hh Hp).
    + intros Hx. apply in_flat_map in Hx as [d [_ Hx]].
      apply in_map_iff in Hx as [name [<- Hname]].
      destruct (has_magic basename) eqn:Hb.
      * apply glob1_selects in Hname as [Hl Hh]. left. split; [reflexivity|].
        intros Hp. fold (basename_of (os_path_join d name)).
        rewrite (basename_of_join d name (listdir_no_slash _ _ _ _ Hok Hl)).
        exact (Hh Hp).
      * apply glob0_selects in Hname. subst name. right. split; [reflexivity|].
        apply (basename_of_join d basename Hbase).
  - destruct (is_empty basename); [destruct (isdir fs dirname) | destruct (lexists fs p)];
      simpl; intros H;
      first [contradiction | destruct H as [H|H]; [congruence | contradiction]].
Qed.

Lemma sorted_In l x : In x (sorted l) <-> In x l.
Proof.
  unfold sorted. rewrite <- !list_elem_of_In.
  rewrite (merge_sort_Permutation _ l). reflexivity.
Qed.

(** C10, amended.  When the last component of the pattern does not both
    hold a wildcard and begin with a dot, a file selected by the pattern and
    renamed by [dot_rename] is not selected again: whatever the directories
    hold afterwards, its dotted name is not among the files to work on. *)
Theorem renamed_file_not_reselected fs fs' options path :
  names_ok fs -> names_ok fs' ->
  has_magic (basename_of (pattern options))
  && ishidden (basename_of (pattern options)) = false ->
  In path (files_to_work rt fs options) ->
  dot_rename path = emit (Rename path (dotted path)) /\
  ~ In (dotted path) (files_to_work rt fs' options).
Proof.
  intros Hok Hok' Hpat Hsel. split; [apply dot_rename_dotted|].
  unfold files_to_work, iglob in *. rewrite sorted_In in *. intros Hagain.
  apply (iglob_rec_selects _ fs _ _ _ Hok) in Hsel.
  apply (iglob_rec_selects _ fs' _ _ _ Hok') in Hagain.
  pose proof (dotted_basename_differs path) as Hne.
  pose proof (basename_of_dotted path) as Hdot.
  destruct (has_magic (pattern options)).
  - destruct Hagain as [[Hm Hh] | [Hm Hb]].
    + rewrite Hm in Hpat. simpl in Hpat. specialize (Hh Hpat).
      rewrite Hdot in Hh. discriminate Hh.
    + destruct Hsel as [[Hm' _] | [_ Hb']]; congruence.
  - subst path. apply Hne. rewrite Hagain. reflexivity.
Qed.

End GlobFacts.

(** *** The fuel of [iglob_rec] *)

Lemma lstrip_slash_suffix l : exists s, l = s ++ lstrip_slash l.
Proof.
  induction l as [|c l [s IH]]; [exists []; reflexivity|]. simpl.
  destruct (c =? SLASH).
  - exists (c :: s). simpl. rewrite <- IH. reflexivity.
  - exists []. reflexivity.
Qed.

Lemma rstrip_slash_prefix h : exists s, h = rstrip_slash h ++ s.
Proof.
  unfold rstrip_slash. destruct (lstrip_slash_suffix (rev h)) as [s Hs].
  exists (rev s). rewrite <- rev_app_distr, <- Hs, rev_involutive. reflexivity.
Qed.

Lemma dirname_prefix p : exists s, p = fst (os_path_split p) ++ s.
Proof.
  unfold os_path_split. pose proof (cut_app p) as Hp.
  destruct (cut_after_last_slash p) as [h t]. simpl in Hp.
  destruct (negb (is_empty h) && negb (forallb (N.eqb SLASH) h)); simpl.
  - destruct (rstrip_slash_prefix h) as [s Hs]. exists (s ++ t).
    rewrite app_assoc, <- Hs. symmetry. exact Hp.
  - exists t. symmetry. exact Hp.
Qed.

(** The directory part of a path is the path or shorter than it. *)
Lemma dirname_shorter p :
  fst (os_path_split p) <> p -> (length (fst (os_path_split p)) < length p)%nat.
Proof.
  destruct (dirname_prefix p) as [s Hs]. intros Hne.
  destruct s as [|c s]; [rewrite app_nil_r in Hs; congruence|].
  rewrite Hs at 2. rewrite length_app. simpl. lia.
Qed.

Section GlobFuel.

Variable rt : Runtime.

Lemma iglob_rec_fuel fs n : forall m p dironly,
  (length p <= n)%nat -> (length p <= m)%nat ->
  iglob_rec rt n fs p dironly = iglob_rec rt m fs p dironly.
Proof.
  induction n as [|n IH]; intros m p dironly Hn Hm;
    rewrite (iglob_rec_unfold rt _ fs p dironly);
    rewrite (iglob_rec_unfold rt m fs p dironly);
    pose proof (dirname_shorter p) as Hlt;
    destruct (os_path_split p) as [dirname basename]; simpl in Hlt;
    destruct (negb (has_magic p)); try reflexivity;
    destruct (is_empty dirname); try reflexivity;
    destruct (bool_decide (dirname = p)) eqn:E; simpl; try reflexivity;
    destruct (has_magic dirname); try reflexivity;
    apply bool_decide_eq_false in E; specialize (Hlt E).
  - lia.
  - destruct m as [|m]; [lia|]. rewrite (IH m dirname true) by lia. reflexivity.
Qed.

(** [length pathname] is fuel enough: more fuel selects the same paths. *)
Lemma iglob_fuel_enough fs p n :
  (length p <= n)%nat -> iglob_rec rt n fs p false = iglob rt fs p.
Proof. intros Hn. unfold iglob. apply iglob_rec_fuel; lia. Qed.

End GlobFuel.

Lemma one_dir_names_ok dir names :
  forallb no_slash names = true -> names_ok (one_dir dir names).
Proof.
  intros Hn d n b. simpl. destruct (bool_decide (d = dir)); [|intros []].
  intros Hin. apply in_map_iff in Hin as [x [[= <- _] Hx]].
  rewrite forallb_forall in Hn. apply Hn, Hx.
Qed.

(** The default pattern: [a.tsv.gz], once renamed, is not selected in a
    directory that holds [.a.tsv.gz] and [b.tsv.gz]. *)
Lemma renamed_file_not_reselected_witness :
  ~ In (lit "/data/appsinstalled/.a.tsv.gz")
      (files_to_work (demo_runtime store_up)
         (one_dir (lit "/data/appsinstalled") [lit ".a.tsv.gz"; lit "b.tsv.gz"])
         (default_options false)).
Proof.
  apply (renamed_file_not_reselected (demo_runtime store_up)
           (one_dir (lit "/data/appsinstalled") [lit "a.tsv.gz"; lit "b.tsv.gz"])
           (one_dir (lit "/data/appsinstalled") [lit ".a.tsv.gz"; lit "b.tsv.gz"])
           (default_options false) (lit "/data/appsinstalled/a.tsv.gz")).
  - apply one_dir_names_ok. reflexivity.
  - apply one_dir_names_ok. reflexivity.
  - reflexivity.
  - vm_compute. left. reflexivity.
Defined.

(** C10, as stated, fails for a pattern whose last component is hidden and
    holds a wildcard: [/data/.*.tsv.gz] selects [/data/.a.tsv.gz], which
    [dot_rename] renames to [/data/..a.tsv.gz], and the same pattern selects
    that name in the next run. *)
Lemma hidden_pattern_reselects :
  In (lit "/data/.a.tsv.gz")
    (files_to_work (demo_runtime store_up)
       (one_dir (lit "/data") [lit ".a.tsv.gz"])
       (options_with_pattern (lit "/data/.*.tsv.gz"))) /\
  dot_rename (lit "/data/.a.tsv.gz")
  = ([Rename (lit "/data/.a.tsv.gz") (lit "/data/..a.tsv.gz")], Ret tt) /\
  In (lit "/data/..a.tsv.gz")
    (files_to_work (demo_runtime store_up)
       (one_dir (lit "/data") [lit "..a.tsv.gz"])
       (options_with_pattern (lit "/data/.*.tsv.gz"))).
Proof.
  split; [|split].
  - vm_compute. left. reflexivity.
  - vm_compute. reflexivity.
  - vm_compute. left. reflexivity.
Qed.

(** * Further properties of the loader *)

(** ** Whitespace around a line *)

Lemma lstrip_all_space s : all_space s = true -> lstrip s = [].
Proof.
  induction s as [|c s IH]; simpl; [reflexivity|].
  intros [Hc Hs]%andb_true_iff. rewrite Hc. apply IH, Hs.
Qed.

Lemma lstrip_space_app pre s : all_space pre = true -> lstrip (pre ++ s) = lstrip s.
Proof.
  induction pre as [|c pre IH]; simpl; [reflexivity|].
  intros [Hc Hs]%andb_true_iff. rewrite Hc. apply IH, Hs.
Qed.

Lemma all_space_rev s : all_space s = true -> all_space (rev s) = true.
Proof.
  unfold all_space. rewrite !forallb_forall. intros H c Hc.
  apply H, in_rev, Hc.
Qed.

Lemma rstrip_app_space s post : all_space post = true -> rstrip (s ++ post) = rstrip s.
Proof.
  intros Hp. unfold rstrip. rewrite rev_app_distr.
  rewrite lstrip_space_app by (apply all_space_rev, Hp). reflexivity.
Qed.

Lemma strip_app_space s post : all_space post = true -> strip (s ++ post) = strip s.
Proof.
  intros Hp. unfold strip. induction s as [|c s IH]; simpl.
  - rewrite (lstrip_all_space post Hp). reflexivity.
  - destruct (isspace c); [exact IH|].
    apply (rstrip_app_space (c :: s) post Hp).
Qed.

(** Whitespace before and after a line does not count. *)
Lemma strip_surrounded pre s post :
  all_space pre = true -> all_space post = true ->
  strip (pre ++ s ++ post) = strip s.
Proof.
  intros Hpre Hpost. unfold strip at 1. rewrite lstrip_space_app by exact Hpre.
  apply (strip_app_space s post Hpost).
Qed.

(** The first field of a stripped line that is not blank is not empty. *)
Lemma first_field_not_empty line :
  strip line <> [] -> exists t rest, fields_of line = t :: rest /\ t <> [].
Proof.
  unfold fields_of. intros Hne.
  pose proof (rstrip_starts_clean (lstrip line) (lstrip_starts_clean line)) as Hc.
  fold (strip line) in Hc.
  destruct (strip line) as [|c s]; [congruence|]. simpl in Hc. simpl.
  destruct (c =? TAB) eqn:E.
  - apply N.eqb_eq in E. subst c. discriminate Hc.
  - pose proof (split_not_nil TAB s) as Hs.
    destruct (split TAB s) as [|w ws]; [congruence|].
    exists (c :: w), ws. split; [reflexivity | discriminate].
Qed.

(** ** The parser, all lines *)

Section ParserLaws.

Variable rt : Runtime.

Lemma parse_appsinstalled_case line : parse_case rt line (parse_appsinstalled rt line).
Proof.
  destruct (Nat.lt_ge_cases (length (fields_of line)) 5%nat) as [Hlt | Hge].
  { rewrite (parse_appsinstalled_short rt line Hlt). apply parse_short, Hlt. }
  destruct (Nat.eq_dec (length (fields_of line)) 5%nat) as [Heq | Hne].
  2:{ rewrite (parse_appsinstalled_long rt line) by (unfold fields_of in *; lia).
      apply parse_long. lia. }
  destruct (fields_of line) as [|t [|i [|la [|lo [|ap [|f fs]]]]]] eqn:Hf;
    simpl in Heq; try lia.
  destruct (is_empty t || is_empty i) eqn:Hid.
  { assert (Hor : t = [] \/ i = []).
    { apply orb_true_iff in Hid as [H|H]; apply is_empty_true in H; auto. }
    rewrite (parse_appsinstalled_no_identity rt line t i la lo ap Hf Hor).
    eapply parse_no_identity; eauto. }
  apply orb_false_iff in Hid as [Ht Hi]. apply is_empty_false in Ht, Hi.
  rewrite (parse_appsinstalled_five rt line t i la lo ap Hf Ht Hi).
  destruct (int_tokens rt ap) as [l|] eqn:Hap; [|eapply parse_bad_app; eauto].
  destruct (py_float rt la) as [x|] eqn:Hx;
    [destruct (py_float rt lo) as [y|] eqn:Hy|].
  - eapply parse_good; eauto.
  - eapply parse_bad_geo; eauto.
  - eapply parse_bad_geo; eauto.
Qed.

End ParserLaws.

Section ParserProperties.

Variable rt : Runtime.

Lemma five_fields_first line t i la lo ap :
  fields_of line = [t; i; la; lo; ap] -> t <> [].
Proof.
  intros Hf. destruct (strip line) as [|c s] eqn:Hs.
  - unfold fields_of in Hf. rewrite Hs in Hf. discriminate Hf.
  - destruct (first_field_not_empty line) as [t' [rest [Hf' Ht']]];
      [rewrite Hs; discriminate|].
    rewrite Hf in Hf'. injection Hf' as -> _. exact Ht'.
Qed.

(** X1.  The parser rejects a line (returns [None]) exactly when the
    stripped line has fewer than five fields or an empty device id, and it
    logs nothing then.  The test of an empty device type never decides: a
    stripped line does not begin with a tab. *)
Theorem parse_appsinstalled_rejects line :
  (outcome (parse_appsinstalled rt line) = Ret None <->
   (length (fields_of line) < 5)%nat \/
   exists t la lo ap, fields_of line = [t; []; la; lo; ap])
  /\ (outcome (parse_appsinstalled rt line) = Ret None ->
      events (parse_appsinstalled rt line) = []).
Proof.
  destruct (parse_appsinstalled_case rt line)
    as [Hlt | Hgt | t i la lo ap Hf Hid | t i la lo ap Hf Ht Hi Hap
        | t i la lo ap l x y Hf Ht Hi Hap Hx Hy | t i la lo ap l Hf Ht Hi Hap Hg];
    simpl; (split; [split|]); try reflexivity; try discriminate; auto.
  - intros [H | (t' & la' & lo' & ap' & H)]; [lia | rewrite H in Hgt; simpl in Hgt; lia].
  - intros _. right. destruct Hid as [-> | ->].
    + destruct (five_fields_first line _ _ _ _ _ Hf). reflexivity.
    + eauto.
  - intros [H | (t' & la' & lo' & ap' & H)].
    + rewrite Hf in H. simpl in H. lia.
    + rewrite Hf in H. injection H as _ -> _ _ _. congruence.
  - intros [H | (t' & la' & lo' & ap' & H)].
    + rewrite Hf in H. simpl in H. lia.
    + rewrite Hf in H. injection H as _ -> _ _ _. congruence.
  - intros [H | (t' & la' & lo' & ap' & H)].
    + rewrite Hf in H. simpl in H. lia.
    + rewrite Hf in H. injection H as _ -> _ _ _. congruence.
Qed.

(** X2.  The parser raises [ValueError] exactly on lines of more than five
    fields and [AttributeError] exactly on lines of five fields with a
    device id and an app-id token that is no integer; it raises nothing
    else. *)
Theorem parse_appsinstalled_raises line e :
  outcome (parse_appsinstalled rt line) = Raise e <->
  (e = ValueError /\ (5 < length (fields_of line))%nat) \/
  (e = AttributeError /\
   exists t i la lo ap,
     fields_of line = [t; i; la; lo; ap] /\ i <> [] /\ int_tokens rt ap = None).
Proof.
  destruct (parse_appsinstalled_case rt line)
    as [Hlt | Hgt | t i la lo ap Hf Hid | t i la lo ap Hf Ht Hi Hap
        | t i la lo ap l x y Hf Ht Hi Hap Hx Hy | t i la lo ap l Hf Ht Hi Hap Hg];
    simpl; split; try discriminate.
  - intros [[_ H] | [_ (t & i & la & lo & ap & H & _)]];
      [lia | rewrite H in Hlt; simpl in Hlt; lia].
  - intros [= <-]. left. auto.
  - intros [[-> _] | [-> (t & i & la & lo & ap & H & _)]];
      [reflexivity | rewrite H in Hgt; simpl in Hgt; lia].
  - intros [[_ H] | [_ (t' & i' & la' & lo' & ap' & H & Hi' & _)]].
    + rewrite Hf in H. simpl in H. lia.
    + rewrite Hf in H. injection H as <- <- _ _ _.
      destruct Hid as [H | H]; [|congruence].
      destruct (five_fields_first line _ _ _ _ _ Hf H).
  - intros [= <-]. right. split; [reflexivity|]. eauto 10.
  - intros [[-> H] | [-> _]]; [|reflexivity]. rewrite Hf in H. simpl in H. lia.
  - intros [[_ H] | [_ (t' & i' & la' & lo' & ap' & H & _ & Hap')]].
    + rewrite Hf in H. simpl in H. lia.
    + rewrite Hf in H. injection H as _ _ _ _ <-. congruence.
  - intros [[_ H] | [_ (t' & i' & la' & lo' & ap' & H & _ & Hap')]].
    + rewrite Hf in H. simpl in H. lia.
    + rewrite Hf in H. injection H as _ _ _ _ <-. congruence.
Qed.

(** X3.  A record the parser returns is made of the first two fields of a
    line of exactly five fields, both non-empty; its apps are the integers
    of the tokens of the fifth field, in order; its coordinates are either
    both the floats of the third and fourth fields, with nothing logged, or
    both the text of those fields, with one diagnostic logged. *)
Theorem parse_appsinstalled_record line tr a :
  parse_appsinstalled rt line = (tr, Ret (Some a)) ->
  exists la lo ap,
    fields_of line = [dev_type a; dev_id a; la; lo; ap] /\
    dev_type a <> [] /\ dev_id a <> [] /\
    int_tokens rt ap = Some (apps a) /\
    ((exists x y,
        py_float rt la = Some x /\ py_float rt lo = Some y /\
        lat a = CFloat x /\ lon a = CFloat y /\ tr = [])
     \/ ((py_float rt la = None \/ py_float rt lo = None) /\
         lat a = CStr la /\ lon a = CStr lo /\
         tr = [Log INFO (InvalidGeo line)])).
Proof.
  intros H. pose proof (parse_appsinstalled_case rt line) as Hc. rewrite H in Hc.
  inversion Hc as [Hlt | Hgt | t i la lo ap Hf Hid | t i la lo ap Hf Ht Hi Hap
        | t i la lo ap l x y Hf Ht Hi Hap Hx Hy | t i la lo ap l Hf Ht Hi Hap Hg];
    subst; simpl.
  - exists la, lo, ap. repeat split; auto. left. exists x, y. auto.
  - exists la, lo, ap. repeat split; auto.
Qed.

End ParserProperties.

(** The record of [line_bad_geo]. *)
Lemma parse_appsinstalled_record_witness :
  exists la lo ap,
    fields_of line_bad_geo = [lit "idfa"; lit "1rfw452y52g2gq4g"; la; lo; ap] /\
    int_tokens (demo_runtime store_up) ap = Some [1423; 43]%Z /\
    demo_float la = None.
Proof.
  destruct (parse_appsinstalled_record (demo_runtime store_up) line_bad_geo
              [Log INFO (InvalidGeo line_bad_geo)] record_bad_geo)
    as (la & lo & ap & Hf & _ & _ & Hap & Hgeo).
  - vm_compute. reflexivity.
  - exists la, lo, ap. split; [exact Hf|]. split; [exact Hap|].
    injection Hf as <- _ _. reflexivity.
Defined.

(** ** One line, all cases *)

Lemma store_calls_app tr tr' : store_calls (tr ++ tr') = (store_calls tr + store_calls tr')%nat.
Proof. unfold store_calls. rewrite List.filter_app, length_app. reflexivity. Qed.

Lemma strip_nil_all_space line : strip line = [] <-> all_space line = true.
Proof.
  split.
  - unfold strip. intros H. induction line as [|c line IH]; [reflexivity|].
    simpl in *. destruct (isspace c) eqn:E; [exact (IH H)|].
    exfalso. unfold rstrip in H. simpl in H.
    rewrite lstrip_snoc in H by exact E.
    apply (f_equal (@length N)) in H. rewrite length_rev, length_app in H.
    simpl in H. lia.
  - intros H. unfold strip. rewrite (lstrip_all_space line H). reflexivity.
Qed.

(** The record kept with text coordinates (helper shared by the line
    properties). *)
Lemma parse_appsinstalled_keeps_bad_coords_general rt line t i la lo ap l :
  split TAB (strip line) = [t; i; la; lo; ap] ->
  t <> [] -> i <> [] -> int_tokens rt ap = Some l ->
  py_float rt la = None \/ py_float rt lo = None ->
  parse_appsinstalled rt line =
  ([Log INFO (InvalidGeo line)],
   Ret (Some (mkAppsInstalled t i (CStr la) (CStr lo) l))).
Proof.
  intros Hs Ht Hi Hap Hgeo.
  rewrite (parse_appsinstalled_five rt line t i la lo ap Hs Ht Hi), Hap.
  destruct Hgeo as [-> | ->]; [reflexivity|].
  destruct (py_float rt la); reflexivity.
Qed.

Section LineProperties.

Variable rt : Runtime.

Lemma fields_of_strip line : fields_of (strip line) = fields_of line.
Proof. unfold fields_of. rewrite strip_idemp. reflexivity. Qed.

(** What [handle_line] does with the record of a line. *)
Lemma handle_line_parsed line options device_memc tr a :
  parse_appsinstalled rt (strip line) = (tr, Ret (Some a)) ->
  handle_line rt line options device_memc =
  match device_memc !! dev_type a with
  | Some ((_ :: _) as memc_addr) =>
      (tr ++ events (insert_appsinstalled rt memc_addr a (dry options)),
       match outcome (insert_appsinstalled rt memc_addr a (dry options)) with
       | Ret ok => Ret (if ok then OK else ERROR)
       | Raise e => Raise e
       end)
  | _ => (tr ++ [Log LVL_ERROR (UnknownDevice (dev_type a))], Ret ERROR)
  end.
Proof.
  intros Hp. unfold handle_line.
  destruct (is_empty (strip line)) eqn:Hb.
  { apply is_empty_true in Hb. rewrite Hb in Hp. discriminate Hp. }
  rewrite (bind_returns _ _ tr (Some a) Hp).
  destruct (device_memc !! dev_type a) as [[|c addr]|]; try reflexivity.
  destruct (insert_appsinstalled rt (c :: addr) a (dry options)) as [tr' [ok|e]];
    unfold bind; simpl; rewrite ?app_nil_r; reflexivity.
Qed.

Lemma insert_appsinstalled_store_calls memc_addr a dry_run :
  (store_calls (events (insert_appsinstalled rt memc_addr a dry_run)) <= 1)%nat /\
  (dry_run = false ->
   outcome (insert_appsinstalled rt memc_addr a dry_run) = Ret true ->
   store_calls (events (insert_appsinstalled rt memc_addr a dry_run)) = 1%nat).
Proof.
  pose proof (build_UserApps_silent rt a) as Hs.
  destruct (build_UserApps rt a) as [tr [ua|e]] eqn:Hb; simpl in Hs; subst tr.
  - destruct dry_run.
    + rewrite (insert_appsinstalled_dry rt memc_addr a ua Hb).
      split; [cbv; lia | discriminate].
    + rewrite (insert_appsinstalled_live rt memc_addr a ua Hb).
      destruct (memc_set rt _ _ _); split; cbv; intros; lia.
  - rewrite (insert_appsinstalled_build_raises rt memc_addr a dry_run e Hb).
    split; [cbv; lia | discriminate].
Qed.



(** X4.  Whitespace before and after a line does not count: with any run
    of whitespace (spaces, tabs, the newline of the file) on either side,
    [handle_line] does and returns what it does for the line alone. *)
Theorem handle_line_ignores_whitespace pre line post options device_memc :
  all_space pre = true -> all_space post = true ->
  handle_line rt (pre ++ line ++ post) options device_memc
  = handle_line rt line options device_memc.
Proof.
  intros Hpre Hpost. unfold handle_line.
  rewrite (strip_surrounded pre line post Hpre Hpost). reflexivity.
Qed.

(** X5.  The outcome is Skip exactly for the lines of whitespace only, and
    such a line causes no event. *)
Theorem handle_line_skip_iff_blank line options device_memc :
  (outcome (handle_line rt line options device_memc) = Ret SKIP
   <-> all_space line = true)
  /\ (all_space line = true -> events (handle_line rt line options device_memc) = []).
Proof.
  rewrite <- strip_nil_all_space. split; [split|].
  - intros H. destruct (strip line) as [|c s] eqn:Hs; [reflexivity|]. exfalso.
    unfold handle_line in H. rewrite Hs in H. simpl in H. rewrite <- Hs in H.
    unfold bind in H.
    destruct (parse_appsinstalled rt (strip line)) as [tr [[a|]|e]];
      simpl in H; try discriminate H.
    destruct (device_memc !! dev_type a) as [[|c' addr]|]; simpl in H;
      try discriminate H.
    destruct (insert_appsinstalled rt (c' :: addr) a (dry options)) as [tr' [[|]|e]];
      simpl in H; discriminate H.
  - intros H. rewrite (handle_line_blank rt line options device_memc H). reflexivity.
  - intros H. rewrite (handle_line_blank rt line options device_memc H). reflexivity.
Qed.

(** X6.  In live mode a valid line (five fields, both identifiers, integer
    app ids in the range of the message field, float coordinates, a device
    type with an endpoint) makes one call of the store client with the key
    [dev_type:dev_id]; the outcome is Ok when the call returns and, when it
    raises, Error after the exception is logged. *)
Theorem handle_line_live line options device_memc t i la lo ap l x y addr :
  dry options = false ->
  fields_of line = [t; i; la; lo; ap] -> t <> [] -> i <> [] ->
  int_tokens rt ap = Some l ->
  py_float rt la = Some x -> py_float rt lo = Some y ->
  forallb (apps_fits rt) l = true ->
  device_memc !! t = Some addr -> addr <> [] ->
  let key := t ++ COLON :: i in
  let packed := SerializeToString rt (mkUserApps x y l) in
  handle_line rt line options device_memc =
  match memc_set rt addr key packed with
  | None => ([MemcSet addr key packed], Ret OK)
  | Some e =>
      ([MemcSet addr key packed; Log EXCEPTION (CannotWrite addr e)], Ret ERROR)
  end.
Proof.
  intros Hdry Hf Ht Hi Hap Hx Hy Hfit Hdev Haddr key packed.
  rewrite (handle_line_parsed line options device_memc []
             (mkAppsInstalled t i (CFloat x) (CFloat y) l)).
  - simpl. rewrite Hdev, Hdry. destruct addr as [|c addr]; [congruence|].
    rewrite (insert_appsinstalled_live rt (c :: addr) _ (mkUserApps x y l))
      by (apply build_UserApps_ok; [reflexivity | reflexivity | exact Hfit]).
    subst key packed. unfold memc_key. simpl.
    destruct (memc_set rt _ _ _); reflexivity.
  - rewrite (parse_appsinstalled_five rt _ t i la lo ap), Hap, Hx, Hy;
      [reflexivity | rewrite strip_idemp; exact Hf | exact Ht | exact Hi].
Qed.

Lemma only_logs_store_calls tr : forallb is_log tr = true -> store_calls tr = 0%nat.
Proof.
  unfold store_calls. induction tr as [|ev tr IH]; simpl; [reflexivity|].
  intros [Hev Htr]%andb_true_iff. destruct ev; simpl in *; try discriminate Hev.
  apply IH, Htr.
Qed.

(** X7.  No line makes [handle_line] call the store client more than once,
    and in live mode the outcome Ok comes with exactly one call. *)
Theorem handle_line_one_store_call line options device_memc :
  (store_calls (events (handle_line rt line options device_memc)) <= 1)%nat /\
  (dry options = false ->
   outcome (handle_line rt line options device_memc) = Ret OK ->
   store_calls (events (handle_line rt line options device_memc)) = 1%nat).
Proof.
  destruct (is_empty (strip line)) eqn:Hb.
  { apply is_empty_true in Hb.
    rewrite (handle_line_blank rt line options device_memc Hb).
    split; [cbv; lia | discriminate]. }
  pose proof (parse_appsinstalled_only_logs rt (strip line)) as Hlogs.
  destruct (parse_appsinstalled rt (strip line)) as [tr [[a|]|e]] eqn:Hp;
    unfold all_events in Hlogs; simpl in Hlogs;
    apply only_logs_store_calls in Hlogs.
  - rewrite (handle_line_parsed line options device_memc tr a Hp).
    destruct (device_memc !! dev_type a) as [[|c addr]|]; simpl;
      rewrite store_calls_app, Hlogs; simpl;
      try (split; [cbv; lia | discriminate]).
    destruct (insert_appsinstalled_store_calls (c :: addr) a (dry options)) as [Hle Hone].
    split; [exact Hle|]. intros Hdry Hok. apply (Hone Hdry).
    destruct (insert_appsinstalled rt (c :: addr) a (dry options)) as [tr' [[|]|e]];
      simpl in *; first [reflexivity | discriminate Hok].
  - unfold handle_line. rewrite Hb, (bind_returns _ _ tr None Hp). simpl.
    rewrite app_nil_r, Hlogs. split; [lia | discriminate].
  - unfold handle_line. rewrite Hb, (bind_raises _ _ tr e Hp). simpl.
    rewrite Hlogs. split; [lia | discriminate].
Qed.

(** X8.  A device type configured with an empty address (an option given
    as the empty string) is treated as unknown: for a well-formed line the
    outcome is Error, the device type is logged, and the store client is
    not called. *)
Theorem handle_line_empty_endpoint line options device_memc t i la lo ap l :
  fields_of line = [t; i; la; lo; ap] -> t <> [] -> i <> [] ->
  int_tokens rt ap = Some l ->
  device_memc !! t = Some [] ->
  handle_line rt line options device_memc =
  (geo_events rt (strip line) la lo ++ [Log LVL_ERROR (UnknownDevice t)], Ret ERROR).
Proof.
  intros Hf Ht Hi Hap Hdev.
  assert (Hp : parse_appsinstalled rt (strip line) =
               match py_float rt la, py_float rt lo with
               | Some x, Some y => ret (Some (mkAppsInstalled t i (CFloat x) (CFloat y) l))
               | _, _ => ([Log INFO (InvalidGeo (strip line))],
                          Ret (Some (mkAppsInstalled t i (CStr la) (CStr lo) l)))
               end).
  { rewrite (parse_appsinstalled_five rt _ t i la lo ap), Hap;
      [reflexivity | rewrite strip_idemp; exact Hf | exact Ht | exact Hi]. }
  unfold geo_events.
  destruct (py_float rt la) as [x|]; [destruct (py_float rt lo) as [y|]|];
    rewrite (handle_line_parsed line options device_memc _ _ Hp); simpl;
    rewrite Hdev; reflexivity.
Qed.

(** X9.  A well-formed line with an endpoint whose latitude or longitude
    is no float does not end in an outcome, in live mode or in a dry run:
    after the diagnostic of the parser, the writer raises [TypeError] while
    it builds the message, before any store call, and the exception leaves
    [handle_line]. *)
Theorem handle_line_bad_coords_raises line options device_memc t i la lo ap l addr :
  fields_of line = [t; i; la; lo; ap] -> t <> [] -> i <> [] ->
  int_tokens rt ap = Some l ->
  py_float rt la = None \/ py_float rt lo = None ->
  device_memc !! t = Some addr -> addr <> [] ->
  handle_line rt line options device_memc =
  ([Log INFO (InvalidGeo (strip line))], Raise TypeError).
Proof.
  intros Hf Ht Hi Hap Hgeo Hdev Haddr.
  rewrite (handle_line_parsed line options device_memc
             [Log INFO (InvalidGeo (strip line))]
             (mkAppsInstalled t i (CStr la) (CStr lo) l)).
  - cbn [dev_type]. rewrite Hdev. destruct addr as [|c addr]; [congruence|].
    rewrite (insert_appsinstalled_build_raises rt (c :: addr) _ (dry options) TypeError)
      by (apply (build_UserApps_str_lat rt _ la); reflexivity).
    reflexivity.
  - apply (parse_appsinstalled_keeps_bad_coords_general rt _ t i la lo ap l); auto.
    rewrite strip_idemp. exact Hf.
Qed.

End LineProperties.

(** A line with an empty device id is rejected without a log. *)
Lemma parse_appsinstalled_rejects_witness :
  events (parse_appsinstalled (demo_runtime store_up)
            (tsv [lit "idfa"; []; lit "55.55"; lit "42.42"; lit "1423,43"]))
  = [].
Proof.
  apply (proj2 (parse_appsinstalled_rejects (demo_runtime store_up)
                  (tsv [lit "idfa"; []; lit "55.55"; lit "42.42"; lit "1423,43"]))).
  vm_compute. reflexivity.
Defined.

(** [line_good] indented by a space and ended by CR LF. *)
Lemma handle_line_ignores_whitespace_witness :
  handle_line (demo_runtime store_up) ([32] ++ line_good ++ [13; 10])
    (default_options false) (device_memc_of (default_options false))
  = handle_line (demo_runtime store_up) line_good
      (default_options false) (device_memc_of (default_options false)).
Proof.
  exact (handle_line_ignores_whitespace (demo_runtime store_up) [32] line_good [13; 10]
           (default_options false) (device_memc_of (default_options false))
           eq_refl eq_refl).
Defined.

(** A line of a space, a tab and a newline. *)
Lemma handle_line_skip_iff_blank_witness :
  outcome (handle_line (demo_runtime store_up) [32; 9; 10]
             (default_options false) (device_memc_of (default_options false)))
  = Ret SKIP.
Proof.
  apply (proj1 (handle_line_skip_iff_blank (demo_runtime store_up) [32; 9; 10]
                  (default_options false) (device_memc_of (default_options false)))).
  reflexivity.
Defined.

(** [line_good] written to a store that is up, then to one that is down. *)
Lemma handle_line_live_witness :
  handle_line (demo_runtime store_up) line_good
    (default_options false) (device_memc_of (default_options false))
  = ([MemcSet (lit "127.0.0.1:33013") (lit "idfa:1rfw452y52g2gq4g") []], Ret OK)
  /\ handle_line (demo_runtime store_down) line_good
       (default_options false) (device_memc_of (default_options false))
     = ([MemcSet (lit "127.0.0.1:33013") (lit "idfa:1rfw452y52g2gq4g") [];
         Log EXCEPTION (CannotWrite (lit "127.0.0.1:33013") (OtherException 111))],
        Ret ERROR).
Proof.
  split.
  - apply (handle_line_live (demo_runtime store_up) line_good
             (default_options false) (device_memc_of (default_options false))
             (lit "idfa") (lit "1rfw452y52g2gq4g") (lit "55.55") (lit "42.42")
             (lit "1423,43,567,3,7,23") [1423; 43; 567; 3; 7; 23]%Z
             55.55%float 42.42%float (lit "127.0.0.1:33013"));
      solve [vm_compute; reflexivity | discriminate].
  - apply (handle_line_live (demo_runtime store_down) line_good
             (default_options false) (device_memc_of (default_options false))
             (lit "idfa") (lit "1rfw452y52g2gq4g") (lit "55.55") (lit "42.42")
             (lit "1423,43,567,3,7,23") [1423; 43; 567; 3; 7; 23]%Z
             55.55%float 42.42%float (lit "127.0.0.1:33013"));
      solve [vm_compute; reflexivity | discriminate].
Defined.

(** [line_good], live: the outcome Ok and one store call. *)
Lemma handle_line_one_store_call_witness :
  store_calls
    (events (handle_line (demo_runtime store_up) line_good
               (default_options false) (device_memc_of (default_options false))))
  = 1%nat.
Proof.
  apply (proj2 (handle_line_one_store_call (demo_runtime store_up) line_good
                  (default_options false) (device_memc_of (default_options false))));
    vm_compute; reflexivity.
Defined.

(** [--idfa ""]: [line_good] has the outcome Error. *)
Lemma handle_line_empty_endpoint_witness :
  handle_line (demo_runtime store_up) line_good (default_options false)
    (device_memc_of
       (mkOptions false (lit "/data/appsinstalled/*.tsv.gz")
          [] (lit "127.0.0.1:33014") (lit "127.0.0.1:33015") (lit "127.0.0.1:33016")))
  = ([Log LVL_ERROR (UnknownDevice (lit "idfa"))], Ret ERROR).
Proof.
  apply (handle_line_empty_endpoint (demo_runtime store_up) line_good
           (default_options false) _
           (lit "idfa") (lit "1rfw452y52g2gq4g") (lit "55.55") (lit "42.42")
           (lit "1423,43,567,3,7,23") [1423; 43; 567; 3; 7; 23]%Z);
    solve [vm_compute; reflexivity | discriminate].
Defined.

(** [line_bad_geo] in a dry run. *)
Lemma handle_line_bad_coords_raises_witness :
  handle_line (demo_runtime store_up) line_bad_geo
    (default_options true) (device_memc_of (default_options true))
  = ([Log INFO (InvalidGeo line_bad_geo)], Raise TypeError).
Proof.
  apply (handle_line_bad_coords_raises (demo_runtime store_up) line_bad_geo
           (default_options true) (device_memc_of (default_options true))
           (lit "idfa") (lit "1rfw452y52g2gq4g") (lit "abc") (lit "42.42")
           (lit "1423,43") [1423; 43]%Z (lit "127.0.0.1:33013"));
    solve [vm_compute; reflexivity | discriminate | left; vm_compute; reflexivity].
Defined.

(** ** The store writer, all records *)

Lemma colon_split s r s' r' :
  has_colon s = false -> has_colon s' = false ->
  s ++ COLON :: r = s' ++ COLON :: r' -> s = s' /\ r = r'.
Proof.
  revert s'. induction s as [|c s IH]; intros [|c' s']; simpl.
  - intros _ _ [= <-]. auto.
  - intros _ [Hc _]%orb_false_iff [= <- _]. discriminate Hc.
  - intros [Hc _]%orb_false_iff _ [= -> _]. discriminate Hc.
  - intros [_ Hs]%orb_false_iff [_ Hs']%orb_false_iff [= <- H].
    destruct (IH s' Hs Hs' H) as [-> ->]. auto.
Qed.

(** X10.  The key [dev_type:dev_id] tells records apart: two records whose
    device types hold no colon (as the four of the shard table) have the
    same key only if they have the same device type and the same device
    id. *)
Theorem memc_key_injective a b :
  has_colon (dev_type a) = false -> has_colon (dev_type b) = false ->
  memc_key a = memc_key b ->
  dev_type a = dev_type b /\ dev_id a = dev_id b.
Proof. intros Ha Hb. apply colon_split; assumption. Qed.

(** Two records of the device type [idfa] with the key of [record_good]. *)
Lemma memc_key_injective_witness :
  dev_type record_good = dev_type record_bad_geo /\
  dev_id record_good = dev_id record_bad_geo.
Proof.
  exact (memc_key_injective record_good record_bad_geo eq_refl eq_refl eq_refl).
Defined.

(** X11.  [insert_appsinstalled] reports failure exactly when, in live
    mode, the message was built and the call of the store client raised; a
    dry run never reports failure, and a call that returns is a success
    whatever it returns. *)
Theorem insert_appsinstalled_false_iff rt memc_addr a dry_run :
  outcome (insert_appsinstalled rt memc_addr a dry_run) = Ret false <->
  dry_run = false /\
  exists ua e,
    build_UserApps rt a = ret ua /\
    memc_set rt memc_addr (memc_key a) (SerializeToString rt ua) = Some e.
Proof.
  pose proof (build_UserApps_silent rt a) as Hs.
  destruct (build_UserApps rt a) as [tr [ua|e]] eqn:Hb; simpl in Hs; subst tr.
  - destruct dry_run.
    + rewrite (insert_appsinstalled_dry rt memc_addr a ua Hb). simpl.
      split; [discriminate | intros [H _]; discriminate H].
    + rewrite (insert_appsinstalled_live rt memc_addr a ua Hb).
      destruct (memc_set rt memc_addr (memc_key a) (SerializeToString rt ua))
        as [e|] eqn:Hset; simpl; split.
      * intros _. split; [reflexivity|]. exists ua, e. auto.
      * reflexivity.
      * discriminate.
      * intros [_ (ua' & e & [= <-] & He)]. congruence.
  - rewrite (insert_appsinstalled_build_raises rt memc_addr a dry_run e Hb). simpl.
    split; [discriminate | intros [_ (ua & e' & H & _)]; discriminate H].
Qed.

(** ** The error-rate gate, all results *)

Lemma tally_split results :
  (tally is_OK results + tally (fun r => negb (is_OK r)) results
   = Z.of_nat (length results))%Z.
Proof.
  unfold tally. induction results as [|r results IH]; simpl; [reflexivity|].
  destruct (is_OK r); simpl; lia.
Qed.

Lemma tally_Permutation P results results' :
  Permutation results results' -> tally P results = tally P results'.
Proof.
  unfold tally. induction 1 as [|r l l' _ IH|r r' l|l l' l'' _ IH1 _ IH2]; simpl.
  - reflexivity.
  - destruct (P r); simpl; lia.
  - destruct (P r), (P r'); reflexivity.
  - lia.
Qed.


Lemma tally_occurrences results :
  tally is_OK results = occurrences OK results /\
  (tally (fun r => negb (is_OK r)) results
   = occurrences ERROR results + occurrences SKIP results)%Z.
Proof.
  unfold tally, occurrences.
  induction results as [|r results [IH1 IH2]]; [split; reflexivity|].
  destruct r; cbn [List.filter is_OK HandleLineResult_eqb negb length count_occ
                   HandleLineResult_eq_dec HandleLineResult_rec HandleLineResult_rect] in *;
    split; lia.
Qed.

(** X12.  After the loop of [calculate_raiting], [processed] is the number
    of results that are Ok and [errors] the number of all the others, the
    skipped ones with the failed ones: every result is counted once, so
    the two counters are not negative and add up to the number of
    results. *)
Theorem count_results_total results :
  count_results results
  = (occurrences OK results,
     (occurrences ERROR results + occurrences SKIP results)%Z) /\
  (0 <= fst (count_results results))%Z /\
  (0 <= snd (count_results results))%Z /\
  (fst (count_results results) + snd (count_results results)
   = Z.of_nat (length results))%Z.
Proof.
  rewrite count_results_tally.
  destruct (tally_occurrences results) as [H1 H2]. split.
  - rewrite H1, H2. reflexivity.
  - simpl. split; [unfold tally; lia|]. split; [unfold tally; lia|].
    apply tally_split.
Qed.



(** X14.  The verdict does not depend on the order of the results. *)
Theorem calculate_raiting_Permutation results results' :
  Permutation results results' ->
  calculate_raiting results = calculate_raiting results'.
Proof.
  intros Hp. unfold calculate_raiting. rewrite !count_results_tally.
  rewrite (tally_Permutation is_OK _ _ Hp).
  rewrite (tally_Permutation (fun r => negb (is_OK r)) _ _ Hp). reflexivity.
Qed.

Lemma calculate_raiting_Permutation_witness :
  calculate_raiting [OK; ERROR; OK] = calculate_raiting [ERROR; OK; OK].
Proof.
  apply calculate_raiting_Permutation. apply perm_swap.
Defined.

(** ** The dotted name *)

Lemma lstrip_slash_starts l : startswith_slash (lstrip_slash l) = false.
Proof.
  induction l as [|c l IH]; simpl; [reflexivity|].
  destruct (c =? SLASH) eqn:E; [exact IH | simpl; exact E].
Qed.

Lemma rstrip_slash_ends h : endswith_slash (rstrip_slash h) = false.
Proof.
  unfold endswith_slash, rstrip_slash. rewrite rev_involutive.
  apply lstrip_slash_starts.
Qed.

Lemma rstrip_slash_clean h : endswith_slash h = false -> rstrip_slash h = h.
Proof.
  unfold endswith_slash, rstrip_slash. intros H.
  destruct (rev h) as [|c r] eqn:E; simpl in *.
  - rewrite <- (rev_involutive h), E. reflexivity.
  - rewrite H. rewrite <- E. apply rev_involutive.
Qed.

Lemma rstrip_slash_snoc h : rstrip_slash (h ++ [SLASH]) = rstrip_slash h.
Proof. unfold rstrip_slash. rewrite rev_app_distr. reflexivity. Qed.

Lemma all_slashes_snoc h :
  forallb (N.eqb SLASH) (h ++ [SLASH]) = forallb (N.eqb SLASH) h.
Proof. rewrite forallb_app. simpl. rewrite !andb_true_r. reflexivity. Qed.

Lemma not_all_slashes h :
  h <> [] -> endswith_slash h = false -> forallb (N.eqb SLASH) h = false.
Proof.
  intros Hne He. destruct (forallb (N.eqb SLASH) h) eqn:E; [|reflexivity].
  exfalso. unfold endswith_slash in He.
  destruct (rev h) as [|c r] eqn:Er.
  - apply Hne. rewrite <- (rev_involutive h), Er. reflexivity.
  - simpl in He. rewrite forallb_forall in E.
    assert (Hc : In c h) by (apply in_rev; rewrite Er; left; reflexivity).
    apply E in Hc. rewrite N.eqb_sym in Hc. congruence.
Qed.

(** The directory part [os.path.split] returns is empty, made of slashes
    only, or does not end with a slash. *)
Lemma dirname_clean p :
  let h := fst (os_path_split p) in
  forallb (N.eqb SLASH) h = true \/ (h <> [] /\ endswith_slash h = false).
Proof.
  unfold os_path_split. destruct (cut_after_last_slash p) as [h0 t].
  destruct (is_empty h0) eqn:Ee; simpl.
  - apply is_empty_true in Ee. subst h0. left. reflexivity.
  - destruct (forallb (N.eqb SLASH) h0) eqn:Ea; simpl; [left; exact Ea|].
    right. split; [|apply rstrip_slash_ends].
    intros H. apply rstrip_slash_nil in H. congruence.
Qed.

(** [os.path.split] undoes [os.path.join] of such a directory part and a
    name. *)
Lemma os_path_split_join h n :
  forallb (N.eqb SLASH) h = true \/ (h <> [] /\ endswith_slash h = false) ->
  no_slash n = true ->
  os_path_split (os_path_join h n) = (h, n).
Proof.
  intros Hh Hn. unfold os_path_join. rewrite (no_slash_startswith n Hn).
  destruct (is_empty h) eqn:Ee; simpl.
  { apply is_empty_true in Ee. subst h. simpl. unfold os_path_split.
    rewrite (cut_no_slash n Hn). reflexivity. }
  destruct (endswith_slash h) eqn:Es.
  - destruct Hh as [Ha | [_ Hc]]; [|congruence].
    destruct (endswith_slash_snoc h Es) as [h' ->].
    rewrite <- app_assoc. simpl. unfold os_path_split.
    rewrite (cut_app_slash h' n Hn), Ha, andb_false_r. reflexivity.
  - apply is_empty_false in Ee.
    pose proof (not_all_slashes h Ee Es) as Hna.
    unfold os_path_split. rewrite (cut_app_slash h n Hn).
    rewrite all_slashes_snoc, Hna, andb_true_r.
    destruct (h ++ [SLASH]) eqn:E; [destruct h; discriminate E|]. simpl.
    rewrite <- E, rstrip_slash_snoc, (rstrip_slash_clean h Es). reflexivity.
Qed.

(** X15.  [dot_rename] renames within the directory of the file: the
    dotted name splits into the directory part of the path and the file
    name after a dot, so the renamed file is a hidden file beside the
    original. *)
Theorem dotted_same_directory p :
  os_path_split (dotted p) = (fst (os_path_split p), DOT :: snd (os_path_split p))
  /\ ishidden (basename_of (dotted p)) = true.
Proof.
  assert (H : os_path_split (dotted p)
              = (fst (os_path_split p), DOT :: snd (os_path_split p))).
  { unfold dotted. pose proof (dirname_clean p) as Hh.
    pose proof (basename_of_no_slash p) as Hn. unfold basename_of in Hn.
    destruct (os_path_split p) as [head fn]. simpl in *.
    apply os_path_split_join; [exact Hh | simpl; exact Hn]. }
  split; [exact H|]. unfold basename_of. rewrite H. reflexivity.
Qed.

(** ** The order of the files *)

Lemma str_le_total a b : str_le a b = true \/ str_le b a = true.
Proof.
  revert b. induction a as [|x a IH]; intros [|y b]; simpl; auto.
  destruct (N.lt_trichotomy x y) as [H | [-> | H]].
  - left. apply N.ltb_lt in H. rewrite H. reflexivity.
  - rewrite N.ltb_irrefl, N.eqb_refl. simpl. apply IH.
  - right. apply N.ltb_lt in H. rewrite H. reflexivity.
Qed.

Lemma str_le_cons x a y b :
  str_le (x :: a) (y :: b) = true <-> x < y \/ (x = y /\ str_le a b = true).
Proof.
  simpl. rewrite orb_true_iff, andb_true_iff, N.ltb_lt, N.eqb_eq. reflexivity.
Qed.

Lemma str_le_trans a b c : str_le a b = true -> str_le b c = true -> str_le a c = true.
Proof.
  revert b c. induction a as [|x a IH]; intros [|y b] [|z c]; try (simpl; congruence).
  rewrite !str_le_cons. intros [H1 | [-> H1]] [H2 | [-> H2]].
  - left. lia.
  - left. exact H1.
  - left. exact H2.
  - right. split; [reflexivity|]. apply (IH b c H1 H2).
Qed.

Lemma str_le_antisym a b : str_le a b = true -> str_le b a = true -> a = b.
Proof.
  revert b. induction a as [|x a IH]; intros [|y b]; try (simpl; congruence).
  rewrite !str_le_cons. intros [H1 | [-> H1]] [H2 | [E H2]]; try lia.
  f_equal. apply (IH b H1 H2).
Qed.

Lemma str_order_Total : Total str_order.
Proof.
  intros a b. unfold str_order.
  destruct (str_le_total a b) as [H|H]; rewrite H; simpl; auto.
Qed.

Lemma str_order_Transitive : Transitive str_order.
Proof.
  intros a b c. unfold str_order. rewrite !Is_true_true. apply str_le_trans.
Qed.

Lemma str_order_AntiSymm : AntiSymm (=) str_order.
Proof.
  intros a b. unfold str_order. rewrite !Is_true_true. apply str_le_antisym.
Qed.

Lemma sorted_Permutation l : sorted l ≡ₚ l.
Proof. unfold sorted. apply merge_sort_Permutation. Qed.

Lemma sorted_StronglySorted l : StronglySorted str_order (sorted l).
Proof.
  unfold sorted.
  apply (@StronglySorted_merge_sort _ str_order _ str_order_Transitive str_order_Total).
Qed.

(** Lists with the same elements are sorted into the same list. *)
Lemma sorted_unique l l' : l ≡ₚ l' -> sorted l = sorted l'.
Proof.
  intros Hp.
  apply (@StronglySorted_unique _ str_order str_order_AntiSymm);
    try apply sorted_StronglySorted.
  rewrite !sorted_Permutation. exact Hp.
Qed.

Lemma flat_map_Permutation {A B} (f g : A -> list B) l l' :
  l ≡ₚ l' -> (forall x, f x ≡ₚ g x) -> flat_map f l ≡ₚ flat_map g l'.
Proof.
  intros Hl Hfg. rewrite <- (Permutation_flat_map g Hl).
  clear Hl. induction l as [|x l IH]; simpl; [reflexivity|].
  rewrite (Hfg x), IH. reflexivity.
Qed.

Section OrderFacts.

Variable rt : Runtime.

Lemma listdir_same_entries fs fs' d dironly :
  same_entries fs fs' -> listdir fs d dironly ≡ₚ listdir fs' d dironly.
Proof.
  intros [Hs _]. unfold listdir. apply Permutation_map.
  rewrite (Hs (if is_empty d then [DOT] else d)). reflexivity.
Qed.

Lemma glob1_same_entries fs fs' d pat dironly :
  same_entries fs fs' -> glob1 rt fs d pat dironly ≡ₚ glob1 rt fs' d pat dironly.
Proof.
  intros H. unfold glob1. cbv zeta.
  pose proof (listdir_same_entries fs fs' d dironly H) as Hl.
  destruct (ishidden pat); rewrite Hl; reflexivity.
Qed.

Lemma glob0_same_entries fs fs' d base dironly :
  same_entries fs fs' -> glob0 fs d base dironly = glob0 fs' d base dironly.
Proof.
  intros (_ & Hl & Hd). unfold glob0. rewrite Hl, Hd. reflexivity.
Qed.

Lemma iglob_rec_same_entries fs fs' n : forall p dironly,
  same_entries fs fs' ->
  iglob_rec rt n fs p dironly ≡ₚ iglob_rec rt n fs' p dironly.
Proof.
  induction n as [|n IH]; intros p dironly H;
    rewrite (iglob_rec_unfold rt _ fs p dironly);
    rewrite (iglob_rec_unfold rt _ fs' p dironly);
    destruct H as (Hs & Hl & Hd);
    destruct (os_path_split p) as [dirname basename];
    rewrite <- Hl, <- Hd;
    destruct (negb (has_magic p)); try reflexivity;
    destruct (is_empty dirname);
    try (apply glob1_same_entries; repeat split; assumption);
    (apply flat_map_Permutation;
     [ destruct (negb (bool_decide (dirname = p)) && has_magic dirname);
       [|reflexivity]
     | intros d; apply Permutation_map; destruct (has_magic basename);
       [ apply glob1_same_entries; repeat split; assumption
       | rewrite (glob0_same_entries fs fs' d basename dironly);
         [reflexivity | repeat split; assumption] ] ]).
  - reflexivity.
  - apply IH. repeat split; assumption.
Qed.

(** X16.  The files are worked on in the order of their paths, compared
    code point by code point: the list holds the paths discovery selected,
    every path before a path it is not greater than, and it is the same
    list for two file systems with the same entries, in whatever order
    their directories list them. *)
Theorem files_to_work_order fs options :
  files_to_work rt fs options ≡ₚ iglob rt fs (pattern options) /\
  StronglySorted str_order (files_to_work rt fs options) /\
  (forall fs', same_entries fs fs' ->
               files_to_work rt fs' options = files_to_work rt fs options).
Proof.
  unfold files_to_work. split; [apply sorted_Permutation|].
  split; [apply sorted_StronglySorted|].
  intros fs' H. apply sorted_unique. unfold iglob. symmetry.
  apply iglob_rec_same_entries, H.
Qed.

(** X17.  With a pattern whose last component does not begin with a dot,
    no file whose name begins with a dot is selected: files that were
    renamed by an earlier run, and other hidden files, are left alone. *)
Theorem files_to_work_skips_hidden fs options x :
  names_ok fs ->
  ishidden (basename_of (pattern options)) = false ->
  In x (files_to_work rt fs options) ->
  ishidden (basename_of x) = false.
Proof.
  intros Hok Hpat Hx. unfold files_to_work, iglob in Hx. rewrite sorted_In in Hx.
  apply (iglob_rec_selects rt _ fs _ _ _ Hok) in Hx.
  destruct (has_magic (pattern options)).
  - destruct Hx as [[_ Hh] | [_ Hb]]; [exact (Hh Hpat) | rewrite Hb; exact Hpat].
  - subst x. exact Hpat.
Qed.

End OrderFacts.

(** Two listings of the same three entries give the same files, in the
    same order. *)
Lemma files_to_work_order_witness :
  files_to_work (demo_runtime store_up)
    (one_dir (lit "/data/appsinstalled") [lit "a.tsv.gz"; lit "c.txt"; lit "b.tsv.gz"])
    (default_options false)
  = files_to_work (demo_runtime store_up)
      (one_dir (lit "/data/appsinstalled") [lit "b.tsv.gz"; lit "a.tsv.gz"; lit "c.txt"])
      (default_options false).
Proof.
  apply (proj2 (proj2 (files_to_work_order (demo_runtime store_up)
           (one_dir (lit "/data/appsinstalled") [lit "b.tsv.gz"; lit "a.tsv.gz"; lit "c.txt"])
           (default_options false)))).
  split; [|split; intros p; simpl].
  - intros d. simpl. destruct (bool_decide (d = lit "/data/appsinstalled")); [|reflexivity].
    simpl. eapply perm_trans; [apply perm_swap|]. apply perm_skip, perm_swap.
  - apply bool_decide_ext. simpl. rewrite !elem_of_cons. tauto.
  - reflexivity.
Defined.

(** The default pattern in a directory that holds a renamed file. *)
Lemma files_to_work_skips_hidden_witness :
  ishidden (basename_of (lit "/data/appsinstalled/b.tsv.gz")) = false.
Proof.
  apply (files_to_work_skips_hidden (demo_runtime store_up)
           (one_dir (lit "/data/appsinstalled") [lit ".a.tsv.gz"; lit "b.tsv.gz"])
           (default_options false)).
  - apply one_dir_names_ok. reflexivity.
  - reflexivity.
  - vm_compute. left. reflexivity.
Defined.

(** ** Whole files and the whole run *)


Lemma renames_app tr tr' : renames (tr ++ tr') = renames tr ++ renames tr'.
Proof. unfold renames. apply List.filter_app. Qed.

Lemma renames_Permutation tr tr' : tr ≡ₚ tr' -> renames tr ≡ₚ renames tr'.
Proof.
  unfold renames. induction 1 as [|ev l l' _ IH|ev ev' l|l l' l'' _ IH1 _ IH2]; simpl.
  - reflexivity.
  - destruct (negb (not_rename ev)); [constructor|]; exact IH.
  - destruct (negb (not_rename ev)), (negb (not_rename ev')); try reflexivity.
    apply perm_swap.
  - etransitivity; eassumption.
Qed.

Lemma not_rename_renames tr : forallb not_rename tr = true -> renames tr = [].
Proof.
  unfold renames. induction tr as [|ev tr IH]; simpl; [reflexivity|].
  intros [Hev Htr]%andb_true_iff. rewrite Hev. simpl. apply IH, Htr.
Qed.

Section RunFacts.

Variable rt : Runtime.



End RunFacts.




(** ** The tasks of a pool *)

Lemma get_tasks_concat {A} fuel size (it : list A) :
  (length it <= fuel)%nat -> (1 <= size)%nat ->
  concat (get_tasks fuel size it) = it.
Proof.
  revert it. induction fuel as [|fuel IH]; intros it Hlen Hsize; simpl.
  - destruct it; [reflexivity | simpl in Hlen; lia].
  - destruct (firstn size it) as [|x task] eqn:E.
    + destruct it as [|a it]; [reflexivity|].
      destruct size; [lia | discriminate E].
    + rewrite <- E. simpl. rewrite IH; [apply firstn_skipn | | exact Hsize].
      rewrite List.length_skipn.
      destruct it as [|a it]; [destruct size; discriminate E|].
      simpl in Hlen. simpl. lia.
Qed.

Lemma map_chunksize_pos processes len :
  (1 <= processes)%nat -> (1 <= len)%nat -> (1 <= map_chunksize processes len)%nat.
Proof.
  intros Hp Hl. unfold map_chunksize.
  destruct (Nat.eqb_spec (len mod (processes * 4)) 0) as [E|E]; [|lia].
  pose proof (Nat.div_mod_eq len (processes * 4)) as H. rewrite E in H.
  destruct (len / (processes * 4))%nat; lia.
Qed.

(** The tasks are the items, cut into runs. *)
Lemma task_batches_concat {A} processes (iterable : list A) :
  (1 <= processes)%nat -> concat (task_batches processes iterable) = iterable.
Proof.
  intros Hp. unfold task_batches. destruct iterable as [|a l]; [reflexivity|].
  apply get_tasks_concat; [lia|]. apply map_chunksize_pos; [exact Hp | simpl; lia].
Qed.

Lemma Forall2_In_l {A B} (R : A -> B -> Prop) xs ys x :
  Forall2 R xs ys -> In x xs -> exists y, In y ys /\ R x y.
Proof.
  induction 1 as [|x' y xs ys Hxy _ IH]; intros Hx; [destruct Hx|].
  destruct Hx as [<- | Hx].
  - exists y. split; [left; reflexivity | exact Hxy].
  - destruct (IH Hx) as [y' [Hy' HR]]. exists y'. split; [right; exact Hy' | exact HR].
Qed.

Lemma Forall2_In_r {A B} (R : A -> B -> Prop) xs ys y :
  Forall2 R xs ys -> In y ys -> exists x, In x xs /\ R x y.
Proof.
  induction 1 as [|x y' xs ys Hxy _ IH]; intros Hy; [destruct Hy|].
  destruct Hy as [<- | Hy].
  - exists x. split; [left; reflexivity | exact Hxy].
  - destruct (IH Hy) as [x' [Hx' HR]]. exists x'. split; [right; exact Hx' | exact HR].
Qed.

Lemma Forall2_exists {A B} (R : A -> B -> Prop) xs :
  (forall x, In x xs -> exists y, R x y) -> exists ys, Forall2 R xs ys.
Proof.
  induction xs as [|x xs IH]; intros H; [exists []; constructor|].
  destruct (H x (or_introl eq_refl)) as [y Hy].
  destruct IH as [ys Hys]; [intros x' Hx'; apply H; right; exact Hx'|].
  exists (y :: ys). constructor; assumption.
Qed.

(** *** One task *)

Lemma mapstar_exists {A B} (func : A -> M B -> Prop) task :
  (forall a, In a task -> exists m, func a m) -> exists m, mapstar func task m.
Proof.
  induction task as [|a task IH]; intros H; [eexists; constructor|].
  destruct (H a (or_introl eq_refl)) as [m Hm].
  destruct IH as [ms Hms]; [intros x Hx; apply H; right; exact Hx|].
  eexists. econstructor; eassumption.
Qed.

Lemma mapstar_events {A B} (func : A -> M B -> Prop) P task m :
  mapstar func task m ->
  (forall a m', In a task -> func a m' -> all_events P m') ->
  all_events P m.
Proof.
  induction 1 as [|a task m ms Ha _ IH]; intros H; [reflexivity|].
  apply all_events_bind; [apply (H a m (or_introl eq_refl) Ha)|]. intros b.
  apply all_events_bind; [|intros bs; reflexivity].
  apply IH. intros x m' Hx. apply H. right. exact Hx.
Qed.

Lemma mapstar_returns_inv {A B} (func : A -> M B -> Prop) task m bs :
  mapstar func task m -> outcome m = Ret bs ->
  forall a, In a task -> exists m' b, func a m' /\ outcome m' = Ret b.
Proof.
  intros H. revert bs.
  induction H as [|a task m ms Ha _ IH]; intros bs Hr x Hx; [destruct Hx|].
  destruct m as [tr [b|e]]; [|discriminate Hr].
  destruct ms as [tr' [bs'|e']]; [|discriminate Hr].
  destruct Hx as [<- | Hx].
  - exists (tr, Ret b), b. split; [exact Ha | reflexivity].
  - apply (IH bs' eq_refl x Hx).
Qed.

Lemma mapstar_raises_inv {A B} (func : A -> M B -> Prop) task m e :
  mapstar func task m -> outcome m = Raise e ->
  exists a m', In a task /\ func a m' /\ outcome m' = Raise e.
Proof.
  induction 1 as [|a task m ms Ha _ IH]; intros Hr; [discriminate Hr|].
  destruct m as [tr [b|e0]].
  - destruct ms as [tr' [bs'|e']]; [discriminate Hr|].
    injection Hr as ->.
    destruct (IH eq_refl) as [x [m' [Hx [Hf Hm']]]].
    exists x, m'. split; [right; exact Hx | split; assumption].
  - injection Hr as ->. exists a, (tr, Raise e).
    split; [left; reflexivity | split; [exact Ha | reflexivity]].
Qed.

(** A task whose items all return, each with the renames [rn] gives for
    it: the task returns and its renames are those of its items, in
    order. *)
Lemma mapstar_renames {A B} (func : A -> M B -> Prop) (rn : A -> list event) task m :
  mapstar func task m ->
  (forall a m', In a task -> func a m' ->
     (exists b, outcome m' = Ret b) /\ renames (events m') = rn a) ->
  (exists bs, outcome m = Ret bs) /\ renames (events m) = flat_map rn task.
Proof.
  induction 1 as [|a task m ms Ha _ IH]; intros H.
  { split; [exists []; reflexivity | reflexivity]. }
  destruct (H a m (or_introl eq_refl) Ha) as [[b Hb] Hrn].
  destruct IH as [[bs Hbs] Hrns]; [intros x m' Hx; apply H; right; exact Hx|].
  destruct m as [tr r]. simpl in Hb, Hrn. subst r.
  destruct ms as [tr' r']. simpl in Hbs, Hrns. subst r'.
  split; [exists (b :: bs); reflexivity|].
  unfold bind, ret, events. simpl. rewrite app_nil_r, renames_app, Hrn, Hrns.
  reflexivity.
Qed.

(** *** The workers *)

(** The events of the workers are those of the tasks, each once. *)
Lemma workers_Permutation {C} processes (queue running : list (M C)) out :
  workers processes queue running out ->
  fst out ≡ₚ concat (map fst (running ++ queue)).
Proof.
  induction 1 as [|task queue running out _ _ IH
                  |r1 ev tr r r2 queue tr' failed _ IH
                  |r1 r r2 queue tr' failed _ IH]; simpl in *.
  - reflexivity.
  - rewrite <- app_assoc in IH. exact IH.
  - rewrite !map_app, !concat_app in *. simpl in *.
    rewrite <- !app_assoc in *. simpl. rewrite <- !app_assoc. rewrite IH.
    apply Permutation_middle.
  - rewrite !map_app, !concat_app in *. simpl. exact IH.
Qed.

(** The failure the workers report is the failure of a task, and they
    report none when every task returned. *)
Lemma workers_failed {C} processes (queue running : list (M C)) out :
  workers processes queue running out ->
  match snd out with
  | Some e => In (Raise e) (map snd (running ++ queue))
  | None => forall r, In r (map snd (running ++ queue)) -> exists v, r = Ret v
  end.
Proof.
  induction 1 as [|task queue running out _ _ IH
                  |r1 ev tr r r2 queue tr' failed _ IH
                  |r1 r r2 queue tr' failed _ IH]; simpl in *.
  - intros r [].
  - rewrite <- app_assoc in IH. exact IH.
  - rewrite !map_app in *. simpl in *. exact IH.
  - rewrite !map_app in *. simpl.
    destruct r as [v|e].
    + destruct failed as [e|].
      * rewrite !in_app_iff in *. simpl. tauto.
      * intros r Hr. rewrite !in_app_iff in Hr. simpl in Hr.
        destruct Hr as [[Hr|[Hr|Hr]]|Hr];
          [| exists v; symmetry; exact Hr | |];
          apply IH; rewrite !in_app_iff; tauto.
    + rewrite !in_app_iff. simpl. tauto.
Qed.

Lemma workers_one_task {C} processes (queue : list (M C)) tr r tr' failed :
  workers processes queue [] (tr', failed) ->
  workers processes queue [(tr, r)]
    (tr ++ tr', match r with Raise e => Some e | Ret _ => failed end).
Proof.
  intros H. induction tr as [|ev tr IH]; simpl.
  - apply (workers_put processes [] r [] queue tr' failed H).
  - apply (workers_event processes [] ev tr r [] queue _ _ IH).
Qed.

(** The workers have a run: one worker after another takes a task and
    finishes it. *)
Lemma workers_exists {C} processes (queue : list (M C)) :
  (1 <= processes)%nat -> exists out, workers processes queue [] out.
Proof.
  intros Hp. induction queue as [|[tr r] queue [[tr' failed] IH]].
  - eexists. constructor.
  - eexists. apply workers_get; [simpl; lia|]. simpl.
    apply workers_one_task, IH.
Qed.

(** *** A call of the pool *)

Section PoolFacts.

Context {A B : Type}.
Variable processes : nat.
Variable func : A -> M B -> Prop.
Hypothesis processes_pos : (1 <= processes)%nat.

Lemma pool_map_run_exists iterable :
  (forall a, In a iterable -> exists m, func a m) ->
  exists m, pool_map_run processes func iterable m.
Proof.
  intros H.
  destruct (Forall2_exists (mapstar func) (task_batches processes iterable))
    as [tasks Htasks].
  { intros task Htask. apply mapstar_exists. intros a Ha. apply H.
    rewrite <- (task_batches_concat processes iterable processes_pos).
    apply in_concat. exists task. split; assumption. }
  destruct (workers_exists processes tasks processes_pos) as [[tr failed] Hw].
  eexists. exists tasks, tr, failed. split; [exact Htasks|]. split; [exact Hw|].
  reflexivity.
Qed.

Lemma pool_map_run_events P iterable m :
  pool_map_run processes func iterable m ->
  (forall a m', In a iterable -> func a m' -> all_events P m') ->
  all_events P m.
Proof.
  intros (tasks & tr & failed & Htasks & Hw & ->) H.
  unfold all_events. simpl. apply forallb_forall. intros ev Hev.
  apply (Permutation_in _ (workers_Permutation _ _ _ _ Hw)) in Hev.
  simpl in Hev. apply in_concat in Hev. destruct Hev as [trc [Htrc Hev]].
  apply in_map_iff in Htrc. destruct Htrc as [mc [<- Hmc]].
  destruct (Forall2_In_r _ _ _ _ Htasks Hmc) as [task [Htask Hstar]].
  assert (Hall : all_events P mc).
  { apply (mapstar_events func P task mc Hstar). intros a m' Ha. apply H.
    rewrite <- (task_batches_concat processes iterable processes_pos).
    apply in_concat. exists task. split; assumption. }
  unfold all_events in Hall. rewrite forallb_forall in Hall. apply Hall, Hev.
Qed.

(** When the call returns, every item returned. *)
Lemma pool_map_run_returns_inv iterable m bs :
  pool_map_run processes func iterable m -> outcome m = Ret bs ->
  forall a, In a iterable -> exists m' b, func a m' /\ outcome m' = Ret b.
Proof.
  intros (tasks & tr & failed & Htasks & Hw & ->) Hr a Ha.
  pose proof (workers_failed _ _ _ _ Hw) as Hf. simpl in Hf, Hr.
  destruct failed as [e|]; [discriminate Hr|].
  rewrite <- (task_batches_concat processes iterable processes_pos) in Ha.
  apply in_concat in Ha. destruct Ha as [task [Htask Ha]].
  destruct (Forall2_In_l _ _ _ _ Htasks Htask) as [mc [Hmc Hstar]].
  destruct (Hf (snd mc)) as [v Hv]; [apply in_map, Hmc|].
  apply (mapstar_returns_inv func task mc v Hstar Hv a Ha).
Qed.

(** When the call raises, it raises what an item raised. *)
Lemma pool_map_run_raises_inv iterable m e :
  pool_map_run processes func iterable m -> outcome m = Raise e ->
  exists a m', In a iterable /\ func a m' /\ outcome m' = Raise e.
Proof.
  intros (tasks & tr & failed & Htasks & Hw & ->) Hr.
  pose proof (workers_failed _ _ _ _ Hw) as Hf. simpl in Hf, Hr.
  destruct failed as [e'|]; [|discriminate Hr]. injection Hr as ->.
  apply in_map_iff in Hf. destruct Hf as [mc [Hsnd Hmc]].
  destruct (Forall2_In_r _ _ _ _ Htasks Hmc) as [task [Htask Hstar]].
  destruct (mapstar_raises_inv func task mc e Hstar Hsnd) as [a [m' [Ha Hm']]].
  exists a, m'. split; [|exact Hm'].
  rewrite <- (task_batches_concat processes iterable processes_pos).
  apply in_concat. exists task. split; assumption.
Qed.

Lemma pool_map_run_returns iterable m :
  pool_map_run processes func iterable m ->
  (forall a m', In a iterable -> func a m' -> exists b, outcome m' = Ret b) ->
  exists bs, outcome m = Ret bs.
Proof.
  intros Hrun H. destruct (outcome m) as [bs|e] eqn:Hr; [exists bs; reflexivity|].
  destruct (pool_map_run_raises_inv iterable m e Hrun Hr) as [a [m' [Ha [Hf Hm']]]].
  destruct (H a m' Ha Hf) as [b Hb]. rewrite Hm' in Hb. discriminate Hb.
Qed.

Lemma tasks_renames (rn : A -> list event) batches tasks :
  Forall2 (mapstar func) batches tasks ->
  (forall a m', In a (concat batches) -> func a m' ->
     (exists b, outcome m' = Ret b) /\ renames (events m') = rn a) ->
  renames (concat (map fst tasks)) = flat_map rn (concat batches).
Proof.
  induction 1 as [|task mc batches tasks Hstar _ IH]; intros H; [reflexivity|].
  simpl. rewrite renames_app, flat_map_app.
  destruct (mapstar_renames func rn task mc Hstar) as [_ Hmc].
  { intros a m' Ha. apply H. simpl. apply in_or_app. left. exact Ha. }
  unfold events in Hmc. rewrite Hmc, IH; [reflexivity|].
  intros a m' Ha. apply H. simpl. apply in_or_app. right. exact Ha.
Qed.

(** When every item returns, the renames of the call are those of the
    items, each once, in the order the workers made them. *)
Lemma pool_map_run_renames (rn : A -> list event) iterable m :
  pool_map_run processes func iterable m ->
  (forall a m', In a iterable -> func a m' ->
     (exists b, outcome m' = Ret b) /\ renames (events m') = rn a) ->
  renames (events m) ≡ₚ flat_map rn iterable.
Proof.
  intros (tasks & tr & failed & Htasks & Hw & ->) H.
  unfold events. simpl.
  rewrite (renames_Permutation _ _ (workers_Permutation _ _ _ _ Hw)).
  simpl. rewrite ?app_nil_r.
  rewrite (tasks_renames rn _ _ Htasks).
  - rewrite (task_batches_concat processes iterable processes_pos). reflexivity.
  - rewrite (task_batches_concat processes iterable processes_pos). exact H.
Qed.

End PoolFacts.

(** ** Whole files, with the workers and what can fail *)

Lemma workers_of_lines : (1 <= Z.to_nat MAX_LINE_THREADS)%nat.
Proof. vm_compute. lia. Qed.

Lemma workers_of_files : (1 <= Z.to_nat MAX_FILE_THREADS)%nat.
Proof. vm_compute. lia. Qed.

Lemma flat_map_singleton {A B} (g : A -> B) l : flat_map (fun a => [g a]) l = map g l.
Proof. induction l as [|a l IH]; simpl; [reflexivity | rewrite IH; reflexivity]. Qed.

Section FileRunFacts.

Variable rt : Runtime.
Variable io : FileIO.

Lemma insert_appsinstalled_no_verdict memc_addr a dry_run :
  all_events no_verdict (insert_appsinstalled rt memc_addr a dry_run).
Proof.
  pose proof (build_UserApps_silent rt a) as Hs.
  destruct (build_UserApps rt a) as [tr [ua|e]] eqn:Hb; simpl in Hs; subst tr.
  - destruct dry_run.
    + rewrite (insert_appsinstalled_dry rt memc_addr a ua Hb). reflexivity.
    + rewrite (insert_appsinstalled_live rt memc_addr a ua Hb).
      destruct (memc_set rt _ _ _); reflexivity.
  - rewrite (insert_appsinstalled_build_raises rt memc_addr a dry_run e Hb). reflexivity.
Qed.

(** No line computes a verdict. *)
Lemma handle_line_no_verdict line options device_memc :
  all_events no_verdict (handle_line rt line options device_memc).
Proof.
  unfold handle_line. destruct (is_empty (strip line)); [reflexivity|].
  apply all_events_bind.
  { destruct (parse_appsinstalled_case rt (strip line)); reflexivity. }
  intros [a|]; [|reflexivity].
  destruct (device_memc !! dev_type a) as [[|c addr]|].
  - apply all_events_bind; [reflexivity | intros _; reflexivity].
  - apply all_events_bind; [apply insert_appsinstalled_no_verdict|].
    intros ok. reflexivity.
  - apply all_events_bind; [reflexivity | intros _; reflexivity].
Qed.

Lemma dot_rename_io_dotted path :
  dot_rename_io io path
  = (emit (Rename path (dotted path)) ;;;
     match os_rename io path (dotted path) with
     | None => ret tt
     | Some e => raise e
     end).
Proof. unfold dot_rename_io, dotted. destruct (os_path_split path). reflexivity. Qed.

(** [process_file] has a run, whatever the file. *)
Lemma process_file_run_exists filename options device_memc :
  exists m, process_file_run rt io filename options device_memc m.
Proof.
  unfold process_file_run. destruct (read_lines io filename) as [fd|e].
  - destruct (pool_map_run_exists (Z.to_nat MAX_LINE_THREADS)
                (fun line m' => m' = handle_line rt line options device_memc)
                workers_of_lines fd) as [mapped Hmapped].
    { intros line _. eexists. reflexivity. }
    eexists. exists mapped. split; [exact Hmapped | reflexivity].
  - eexists. eexists. split; reflexivity.
Qed.

(** A file that is read to its end, whose lines all have an outcome and
    whose rename succeeds: [process_file] returns and renames the file,
    once. *)
Lemma process_file_run_returns filename fd options device_memc m :
  read_lines io filename = Ret fd ->
  (forall line, In line fd ->
     exists r, outcome (handle_line rt line options device_memc) = Ret r) ->
  os_rename io filename (dotted filename) = None ->
  process_file_run rt io filename options device_memc m ->
  outcome m = Ret tt /\ renames (events m) = [Rename filename (dotted filename)].
Proof.
  intros Hread Hlines Hren (mapped & Hmap & ->). rewrite Hread in Hmap.
  destruct (pool_map_run_returns _ _ workers_of_lines fd mapped Hmap) as [bs Hbs].
  { intros line m' Hl ->. apply Hlines, Hl. }
  assert (Hnr : all_events not_rename mapped).
  { apply (pool_map_run_events _ _ workers_of_lines not_rename fd mapped Hmap).
    intros line m' _ ->. apply handle_line_no_rename. }
  destruct mapped as [tr r]. simpl in Hbs. subst r.
  rewrite dot_rename_io_dotted, Hren.
  pose proof (calculate_raiting_returns bs) as Hc.
  pose proof (calculate_raiting_only_logs bs) as Hlog.
  apply (all_events_weaken is_log not_rename _ is_log_not_rename) in Hlog.
  unfold bind, emit, ret, events, outcome. cbv beta iota.
  destruct (calculate_raiting bs) as [trc rc]. simpl in Hc. subst rc.
  unfold all_events in Hnr, Hlog. simpl in Hnr, Hlog.
  simpl. split; [reflexivity|].
  change (renames ([Log INFO (Processing filename)]
                     ++ tr ++ [Rename filename (dotted filename)] ++ trc)
          = [Rename filename (dotted filename)]).
  rewrite !renames_app, (not_rename_renames tr Hnr), (not_rename_renames trc Hlog).
  reflexivity.
Qed.

(** When [process_file] returns, the file was read to its end, each of its
    lines had an outcome and its rename succeeded. *)
Lemma process_file_run_returns_inv filename options device_memc m u :
  process_file_run rt io filename options device_memc m ->
  outcome m = Ret u ->
  exists fd,
    read_lines io filename = Ret fd /\
    (forall line, In line fd ->
       exists r, outcome (handle_line rt line options device_memc) = Ret r) /\
    os_rename io filename (dotted filename) = None.
Proof.
  intros (mapped & Hmap & ->) Hr.
  destruct (read_lines io filename) as [fd|e]; [|subst mapped; discriminate Hr].
  exists fd. split; [reflexivity|].
  destruct mapped as [tr [bs|e]] eqn:Hm; [|discriminate Hr]. split.
  - intros line Hl.
    destruct (pool_map_run_returns_inv _ _ workers_of_lines fd (tr, Ret bs) bs
                Hmap eq_refl line Hl) as [m' [r [-> Hr']]].
    exists r. exact Hr'.
  - rewrite dot_rename_io_dotted in Hr.
    destruct (os_rename io filename (dotted filename)) as [e|]; [|reflexivity].
    exfalso. revert Hr. unfold bind, emit, raise, outcome. simpl. discriminate.
Qed.

(** [main] has a run, whatever the files. *)
Lemma main_run_exists fs options : exists m, main_run rt fs io options m.
Proof.
  unfold main_run.
  destruct (pool_map_run_exists (Z.to_nat MAX_FILE_THREADS)
              (fun filename =>
                 process_file_run rt io filename options (device_memc_of options))
              workers_of_files (files_to_work rt fs options)) as [mapped Hmapped].
  { intros f _. apply process_file_run_exists. }
  eexists. exists mapped. split; [exact Hmapped | reflexivity].
Qed.

Lemma main_run_returns fs options m :
  (forall f, In f (files_to_work rt fs options) -> loads rt io options f) ->
  main_run rt fs io options m ->
  outcome m = Ret tt /\
  renames (events m)
  ≡ₚ map (fun f => Rename f (dotted f)) (files_to_work rt fs options).
Proof.
  intros H (mapped & Hmap & ->).
  assert (Hfile : forall f m', In f (files_to_work rt fs options) ->
            process_file_run rt io f options (device_memc_of options) m' ->
            (exists b, outcome m' = Ret b) /\
            renames (events m') = [Rename f (dotted f)]).
  { intros f m' Hf Hm'. destruct (H f Hf) as (fd & Hread & Hlines & Hren).
    destruct (process_file_run_returns f fd options _ m' Hread Hlines Hren Hm')
      as [Hr Hn].
    split; [exists tt; exact Hr | exact Hn]. }
  destruct (pool_map_run_returns _ _ workers_of_files _ mapped Hmap) as [bs Hbs].
  { intros f m' Hf Hm'. apply (Hfile f m' Hf Hm'). }
  pose proof (pool_map_run_renames _ _ workers_of_files
                (fun f => [Rename f (dotted f)]) _ mapped Hmap Hfile) as Hn.
  rewrite flat_map_singleton in Hn.
  destruct mapped as [tr r]. simpl in Hbs. subst r.
  unfold bind, ret, events, outcome in *. simpl in *. rewrite app_nil_r.
  split; [reflexivity | exact Hn].
Qed.

Lemma main_run_returns_inv fs options m u :
  main_run rt fs io options m -> outcome m = Ret u ->
  forall f, In f (files_to_work rt fs options) -> loads rt io options f.
Proof.
  intros (mapped & Hmap & ->) Hr f Hf.
  destruct mapped as [tr [bs|e]]; [|discriminate Hr].
  destruct (pool_map_run_returns_inv _ _ workers_of_files _ (tr, Ret bs) bs
              Hmap eq_refl f Hf) as [m' [b [Hm' Hb]]].
  apply (process_file_run_returns_inv f options _ m' b Hm' Hb).
Qed.

(** X20.  When a line of a file raises, every run of [process_file] on
    that file raises, and what it raises is the exception of a line of the
    file (the first failure the workers report, which need not be that of
    the first such line).  The file keeps its name, for no event of the
    run is a rename, and no verdict is logged.  There is such a run. *)
Theorem process_file_line_raises filename fd line e0 options device_memc :
  read_lines io filename = Ret fd ->
  In line fd ->
  outcome (handle_line rt line options device_memc) = Raise e0 ->
  (exists m, process_file_run rt io filename options device_memc m) /\
  forall m, process_file_run rt io filename options device_memc m ->
    (exists line' e,
       In line' fd /\
       outcome (handle_line rt line' options device_memc) = Raise e /\
       outcome m = Raise e) /\
    all_events not_rename m /\
    all_events no_verdict m.
Proof.
  intros Hread Hline He0. split; [apply process_file_run_exists|].
  intros m (mapped & Hmap & ->). rewrite Hread in Hmap.
  assert (Hnr : all_events not_rename mapped).
  { apply (pool_map_run_events _ _ workers_of_lines not_rename fd mapped Hmap).
    intros l m' _ ->. apply handle_line_no_rename. }
  assert (Hnv : all_events no_verdict mapped).
  { apply (pool_map_run_events _ _ workers_of_lines no_verdict fd mapped Hmap).
    intros l m' _ ->. apply handle_line_no_verdict. }
  destruct mapped as [tr [bs|e]].
  - destruct (pool_map_run_returns_inv _ _ workers_of_lines fd (tr, Ret bs) bs
                Hmap eq_refl line Hline) as [m' [r [-> Hr]]].
    rewrite He0 in Hr. discriminate Hr.
  - destruct (pool_map_run_raises_inv _ _ workers_of_lines fd (tr, Raise e) e
                Hmap eq_refl) as [line' [m' [Hl [-> He]]]].
    unfold all_events in *. simpl in Hnr, Hnv.
    unfold bind, emit, outcome. simpl. split; [|split].
    + exists line', e. split; [exact Hl | split; [exact He | reflexivity]].
    + exact Hnr.
    + exact Hnv.
Qed.

(** X19.  When every discovered file is read to its end, each of its lines
    has an outcome and its rename succeeds, every run of [main] returns,
    and the renames of the run are those of the discovered files, each
    renamed once to its dotted name.  There is such a run. *)
Theorem main_renames_every_file fs options :
  (forall f, In f (files_to_work rt fs options) -> loads rt io options f) ->
  (exists m, main_run rt fs io options m) /\
  forall m, main_run rt fs io options m ->
    outcome m = Ret tt /\
    renames (events m)
    ≡ₚ map (fun f => Rename f (dotted f)) (files_to_work rt fs options).
Proof.
  intros H. split; [apply main_run_exists|].
  intros m Hm. apply (main_run_returns fs options m H Hm).
Qed.

(** X22.  The script has a run, and every run exits with 0 or with 1: with
    0 exactly when every discovered file is read to its end, each of its
    lines has an outcome and its rename succeeds.  One file that cannot be
    read, one line that raises or one rename that fails makes the whole
    run exit with 1. *)
Theorem script_exit_code fs opts :
  (exists out, script_run rt fs io opts out) /\
  forall out, script_run rt fs io opts out ->
    (snd out = 0%Z <->
     forall f, In f (files_to_work rt fs opts) -> loads rt io opts f) /\
    (snd out = 0%Z \/ snd out = 1%Z).
Proof.
  split.
  { destruct (main_run_exists fs opts) as [m Hm].
    eexists. exists m. split; [exact Hm | reflexivity]. }
  intros out (m & Hm & ->). split; [split|].
  - intros H. destruct m as [tr [u|e]] eqn:E; [|discriminate H].
    apply (main_run_returns_inv fs opts (tr, Ret u) u Hm eq_refl).
  - intros H. destruct (main_run_returns fs opts m H Hm) as [Hr _].
    destruct m as [tr [u|e]]; [reflexivity | discriminate Hr].
  - destruct m as [tr [u|e]]; auto.
Qed.

End FileRunFacts.

(** A file of a good line, a line of six fields and a line with an app id
    that is no integer: every run raises the exception of the second or of
    the third line, and the file keeps its name. *)
Lemma process_file_line_raises_witness :
  exists m,
    process_file_run (demo_runtime store_up)
      (io_of_lines [line_good; line_six_fields; line_bad_app])
      (lit "/data/a.tsv") (default_options false)
      (device_memc_of (default_options false)) m /\
    (outcome m = Raise ValueError \/ outcome m = Raise AttributeError) /\
    all_events not_rename m /\ all_events no_verdict m.
Proof.
  assert (H6 : outcome (handle_line (demo_runtime store_up) line_six_fields
                          (default_options false)
                          (device_memc_of (default_options false)))
               = Raise ValueError) by (vm_compute; reflexivity).
  destruct (process_file_line_raises (demo_runtime store_up)
              (io_of_lines [line_good; line_six_fields; line_bad_app])
              (lit "/data/a.tsv") [line_good; line_six_fields; line_bad_app]
              line_six_fields ValueError (default_options false)
              (device_memc_of (default_options false))
              eq_refl (or_intror (or_introl eq_refl)) H6) as [[m Hm] Hall].
  exists m. split; [exact Hm|].
  destruct (Hall m Hm) as [(line' & e & Hl & He & Hr) Hev].
  split; [|exact Hev].
  destruct Hl as [<- | [<- | [<- | []]]]; vm_compute in He.
  - discriminate He.
  - injection He as <-. left. exact Hr.
  - injection He as <-. right. exact Hr.
Defined.

(** Two files of a good line and a blank line. *)
Lemma main_renames_every_file_witness :
  exists m,
    main_run (demo_runtime store_up)
      (one_dir (lit "/data/appsinstalled") [lit "a.tsv.gz"; lit "b.tsv.gz"])
      (io_of_lines [line_good; lit " "]) (default_options false) m /\
    outcome m = Ret tt.
Proof.
  destruct (main_renames_every_file (demo_runtime store_up)
              (io_of_lines [line_good; lit " "])
              (one_dir (lit "/data/appsinstalled") [lit "a.tsv.gz"; lit "b.tsv.gz"])
              (default_options false)) as [[m Hm] Hall].
  - intros f _. exists [line_good; lit " "]. split; [reflexivity|].
    split; [|reflexivity].
    intros line [<- | [<- | []]]; eexists; vm_compute; reflexivity.
  - exists m. split; [exact Hm | apply (Hall m Hm)].
Defined.

(** One file that is not a gzip file: no line is handled, and the script
    exits with 1. *)
Lemma script_exit_code_witness :
  exists out,
    script_run (demo_runtime store_up)
      (one_dir (lit "/data/appsinstalled") [lit "a.tsv.gz"])
      io_not_gzip (default_options false) out /\
    snd out = 1%Z.
Proof.
  destruct (script_exit_code (demo_runtime store_up) io_not_gzip
              (one_dir (lit "/data/appsinstalled") [lit "a.tsv.gz"])
              (default_options false)) as [[out Hout] Hall].
  exists out. split; [exact Hout|].
  destruct (Hall out Hout) as [Hiff [H0 | H1]]; [exfalso | exact H1].
  destruct (proj1 Hiff H0 (lit "/data/appsinstalled/a.tsv.gz"))
    as (fd & Hread & _).
  - vm_compute. left. reflexivity.
  - discriminate Hread.
Defined.
